(** * Reverse-initiated chunked file transfer: server and client

    A shallow embedding of [server/server.js] (connection registry, chunk
    assembler, request orchestrator) and of the client script
    (sender-side flow controller), with the properties of the transfer
    protocol stated and proved over it.

    Conventions of the embedding:
    - a Buffer is a [list byte]; a JS string is a [string];
    - [Date.now()] is read by the caller and passed in as an [N];
    - a WebSocket connection object is named by a [nat] (object identity);
    - the [clients] Map keeps insertion order, so it is an association
      list; the write streams live in a store indexed by handle;
    - console output and [ws.send] calls are returned as a list of effects. *)

From stdpp Require Import base list strings.
From Stdlib Require Import NArith Ascii Lia DecimalString DecimalN.
From Stdlib.Strings Require Import Byte.

Local Open Scope string_scope.
Local Open Scope list_scope.
Local Open Scope N_scope.

(** ** Node's base64 codec

    [chunk.toString('base64')] and [Buffer.from(chunk, 'base64')] are
    Node's own; they follow RFC 4648. The decoder is the lenient one of
    Node: it accepts the URL-safe characters as well, skips every other
    character outside the alphabet and stops at the first padding
    character. *)
Module Base64.

Definition alphabet : string :=
  "ABCDEFGHIJKLMNOPQRSTUVWXYZabcdefghijklmnopqrstuvwxyz0123456789+/".

Definition pad : ascii := "="%char.

Definition encodeSextet (v : N) : ascii :=
  match String.get (N.to_nat v) alphabet with
  | Some c => c
  | None => pad
  end.

Definition unbase64 (c : ascii) : option N :=
  let n := N_of_ascii c in
  if (65 <=? n) && (n <=? 90) then Some (n - 65)
  else if (97 <=? n) && (n <=? 122) then Some (n - 71)
  else if (48 <=? n) && (n <=? 57) then Some (n + 4)
  else if (n =? 43) || (n =? 45) then Some 62
  else if (n =? 47) || (n =? 95) then Some 63
  else None.

Definition toByte (n : N) : byte :=
  match Byte.of_N (n mod 256) with
  | Some b => b
  | None => x00
  end.

(** The four sextets of a group of three octets (missing octets are 0). *)
Definition sextet1 (a : N) : N := a / 4.
Definition sextet2 (a b : N) : N := (a mod 4) * 16 + b / 16.
Definition sextet3 (b c : N) : N := (b mod 16) * 4 + c / 64.
Definition sextet4 (c : N) : N := c mod 64.

Fixpoint encode (bs : list byte) : string :=
  match bs with
  | [] => ""
  | [a] =>
      let a := Byte.to_N a in
      String (encodeSextet (sextet1 a))
        (String (encodeSextet (sextet2 a 0)) (String pad (String pad "")))
  | [a; b] =>
      let a := Byte.to_N a in
      let b := Byte.to_N b in
      String (encodeSextet (sextet1 a))
        (String (encodeSextet (sextet2 a b))
           (String (encodeSextet (sextet3 b 0)) (String pad "")))
  | a :: b :: c :: rest =>
      let a := Byte.to_N a in
      let b := Byte.to_N b in
      let c := Byte.to_N c in
      String (encodeSextet (sextet1 a))
        (String (encodeSextet (sextet2 a b))
           (String (encodeSextet (sextet3 b c))
              (String (encodeSextet (sextet4 c)) (encode rest))))
  end.

(** Legal characters up to the first padding character. *)
Fixpoint sextets (s : string) : list N :=
  match s with
  | EmptyString => []
  | String c r =>
      if Ascii.eqb c pad then []
      else match unbase64 c with
           | Some v => v :: sextets r
           | None => sextets r
           end
  end.

Definition octet1 (s1 s2 : N) : byte := toByte (s1 * 4 + s2 / 16).
Definition octet2 (s2 s3 : N) : byte := toByte ((s2 mod 16) * 16 + s3 / 4).
Definition octet3 (s3 s4 : N) : byte := toByte ((s3 mod 4) * 64 + s4).

Fixpoint octets (vs : list N) : list byte :=
  match vs with
  | s1 :: s2 :: s3 :: s4 :: rest =>
      octet1 s1 s2 :: octet2 s2 s3 :: octet3 s3 s4 :: octets rest
  | [s1; s2; s3] => [octet1 s1 s2; octet2 s2 s3]
  | [s1; s2] => [octet1 s1 s2]
  | _ => []
  end.

Definition decode (s : string) : list byte := octets (sextets s).

(** The table check: every sextet is printed as a legal character that
    reads back as the same sextet. *)
Definition sextetRange : list N := map N.of_nat (seq 0 64).

Definition legal (v : N) : bool :=
  match unbase64 (encodeSextet v) with
  | Some v' => N.eqb v' v && negb (Ascii.eqb (encodeSextet v) pad)
  | None => false
  end.

End Base64.

(** ** Wire envelopes (the objects passed through JSON) *)

Inductive ClientMsg : Type :=
  | MsgRegister (clientId : string)
  | MsgFileChunk (clientId downloadId chunk : string) (chunkIndex : nat)
  | MsgFileComplete (clientId downloadId : string) (totalChunks fileSize : nat)
  | MsgError (clientId downloadId error : string)
  | MsgOther (type : string).

Inductive ServerMsg : Type :=
  | MsgRegistered (clientId : string)
  | MsgDownloadRequest (downloadId : string).

(** A template literal prints a non-negative integer in decimal. *)
Definition decimal (n : N) : string := NilZero.string_of_uint (N.to_uint n).

(** The characters of a string. *)
Definition chars : string -> list ascii := String.list_ascii_of_string.

Definition underscore : ascii := "_"%char.

(** ** The client: sender-side flow controller *)
Module Sender.

Record Config : Type := mkConfig {
  CLIENT_ID : string;
  (** [parseInt(process.env.CHUNK_SIZE) || 64 * 1024]: never 0 *)
  CHUNK_SIZE : positive
}.

Definition defaultChunkSize : positive := 65536%positive.

(** What a read stream delivers to its listeners. *)
Inductive StreamEvent : Type :=
  | Data (chunk : list byte)
  | End
  | ReadError (message : string).

(** [fs.createReadStream(FILE_PATH, {highWaterMark})] over a file of
    contents [content]: reads of [highWaterMark] bytes until the end of the
    file. The fuel is the number of bytes left, which no read of a
    non-empty rest exhausts. *)
Fixpoint readChunks (fuel : nat) (highWaterMark : nat) (content : list byte)
  : list (list byte) :=
  match fuel with
  | O => []
  | S fuel' =>
      match content with
      | [] => []
      | _ :: _ =>
          take highWaterMark content
            :: readChunks fuel' highWaterMark (drop highWaterMark content)
      end
  end.

Definition createReadStream (highWaterMark : positive) (content : list byte)
  : list StreamEvent :=
  map Data (readChunks (List.length content) (Pos.to_nat highWaterMark) content)
    ++ [End].

(** The two counters of [handleDownloadRequest]. *)
Record Transfer : Type := mkTransfer {
  chunkIndex : nat;
  totalBytesSent : nat
}.

(** The success branch of the [ws.send] callback. *)
Definition sent (t : Transfer) (chunk : list byte) : Transfer :=
  {| chunkIndex := S (chunkIndex t);
     totalBytesSent := totalBytesSent t + List.length chunk |}.

(** The listeners of the read stream, run over the events in order.
    [flushed i] tells whether the transport reports the send of chunk [i]
    as written; a send that fails puts nothing on the wire and destroys the
    stream, so that no later event is delivered. Each ['data'] pauses the
    stream and only the callback resumes it, hence one event at a time. *)
Fixpoint pump (cfg : Config) (downloadId : string) (fileSize : nat)
    (flushed : nat -> bool) (t : Transfer) (events : list StreamEvent)
  : list ClientMsg :=
  match events with
  | [] => []
  | Data chunk :: rest =>
      if flushed (chunkIndex t) then
        MsgFileChunk (CLIENT_ID cfg) downloadId (Base64.encode chunk)
                     (chunkIndex t)
          :: pump cfg downloadId fileSize flushed (sent t chunk) rest
      else []
  | End :: _ =>
      [MsgFileComplete (CLIENT_ID cfg) downloadId (chunkIndex t) fileSize]
  | ReadError message :: _ =>
      [MsgError (CLIENT_ID cfg) downloadId message]
  end.

(** [handleDownloadRequest(data)]: [file] is the contents of [FILE_PATH],
    [None] when [fs.existsSync] is false. *)
Definition handleDownloadRequest (cfg : Config) (file : option (list byte))
    (flushed : nat -> bool) (downloadId : string) : list ClientMsg :=
  match file with
  | None => [MsgError (CLIENT_ID cfg) downloadId "File not found"]
  | Some content =>
      let fileSize := List.length content in
      pump cfg downloadId fileSize flushed
        {| chunkIndex := 0; totalBytesSent := 0 |}
        (createReadStream (CHUNK_SIZE cfg) content)
  end.

(** The buffers the read stream of the client hands to ['data']. *)
Definition chunksOf (cfg : Config) (content : list byte) : list (list byte) :=
  readChunks (List.length content) (Pos.to_nat (CHUNK_SIZE cfg)) content.

End Sender.

(** ** Reading a trace of client envelopes *)
Module Trace.

(** The chunk envelopes of the buffers [cs], numbered from [i]. *)
Fixpoint chunkMsgs (clientId downloadId : string) (i : nat)
    (cs : list (list byte)) : list ClientMsg :=
  match cs with
  | [] => []
  | c :: r =>
      MsgFileChunk clientId downloadId (Base64.encode c) i
        :: chunkMsgs clientId downloadId (S i) r
  end.


(** The completion envelopes of a trace, in order. *)
Fixpoint completions (msgs : list ClientMsg) : list (nat * nat) :=
  match msgs with
  | [] => []
  | MsgFileComplete _ _ totalChunks fileSize :: r =>
      (totalChunks, fileSize) :: completions r
  | _ :: r => completions r
  end.

End Trace.

(** ** A JS [Map] with string keys: insertion-ordered *)
Module JsMap.
Section Ops.
Context {V : Type}.

Fixpoint get (k : string) (m : list (string * V)) : option V :=
  match m with
  | [] => None
  | (k', v) :: r => if String.eqb k k' then Some v else get k r
  end.

Definition has (k : string) (m : list (string * V)) : bool :=
  match get k m with Some _ => true | None => false end.

(** [set] keeps the position of a key that is already present. *)
Fixpoint set (k : string) (v : V) (m : list (string * V))
  : list (string * V) :=
  match m with
  | [] => [(k, v)]
  | (k', v') :: r =>
      if String.eqb k k' then (k, v) :: r else (k', v') :: set k v r
  end.

(** A Map holds a key once; [delete] leaves no entry under [k]. *)
Fixpoint delete (k : string) (m : list (string * V)) : list (string * V) :=
  match m with
  | [] => []
  | (k', v') :: r =>
      if String.eqb k k' then delete k r else (k', v') :: delete k r
  end.
End Ops.
End JsMap.

(** ** The server: registry, assembler, orchestrator *)
Module Server.

Module Download.
Record t : Type := mk {
  id : string;
  filePath : string;
  (** handle of the write stream in the store *)
  stream : nat;
  chunksReceived : nat;
  startTime : N
}.
End Download.

Module Client.
Record t : Type := mk {
  (** the connection object, by identity *)
  ws : nat;
  id : string;
  connectedAt : N;
  currentDownload : option Download.t
}.
End Client.

(** A [fs.WriteStream]: the bytes written through it so far. *)
Record WriteStream : Type := mkWriteStream {
  path : string;
  written : list byte;
  ended : bool
}.

Record State : Type := mkState {
  clients : list (string * Client.t);
  streams : list WriteStream
}.

Definition initial : State := {| clients := []; streams := [] |}.

Inductive LogLine : Type :=
  | LogRegistered (clientId : string)
  | LogDisconnected (clientId : string)
  | LogNotFound (clientId : string)
  | LogStarting (clientId fileName : string)
  | LogProgress (chunksReceived : nat) (clientId : string)
  | LogComplete (clientId filePath : string) (totalChunks fileSize : nat)
  | LogClientError (clientId error : string)
  | LogRequesting (clientId : string)
  | LogUnknownType (type : string).

Inductive Effect : Type :=
  | Send (ws : nat) (m : ServerMsg)
  | Log (l : LogLine).

Section WithConfig.
Variable DOWNLOAD_DIR : string.

(** [path.join(DOWNLOAD_DIR, fileName)] on POSIX, for arguments it does
    not have to normalise (no [.] or [..] segment, no doubled or trailing
    separator). [path.join] itself normalises and so can send two names
    to one path, which this definition cannot; nothing below uses more of
    [join] than that equal names give equal paths. *)
Definition join (dir name : string) : string := dir +:+ "/" +:+ name.

Definition fileNameOf (clientId downloadId : string) : string :=
  clientId +:+ "_" +:+ downloadId +:+ "_file_to_download.txt".

Definition handleClientRegistration (st : State) (now : N) (ws : nat)
    (clientId : string) : State * list Effect :=
  ({| clients :=
        JsMap.set clientId
          {| Client.ws := ws; Client.id := clientId;
             Client.connectedAt := now; Client.currentDownload := None |}
          (clients st);
      streams := streams st |},
   [Log (LogRegistered clientId); Send ws (MsgRegistered clientId)]).

(** [fs.createWriteStream(filePath)]: a new stream, its handle. *)
Definition createWriteStream (ss : list WriteStream) (filePath : string)
  : list WriteStream * nat :=
  (ss ++ [{| path := filePath; written := []; ended := false |}],
   List.length ss).

(** [stream.write(buffer)]; a write after [end()] adds nothing. *)
Definition write (buffer : list byte) (s : WriteStream) : WriteStream :=
  if ended s then s
  else {| path := path s; written := written s ++ buffer; ended := false |}.

Definition endStream (s : WriteStream) : WriteStream :=
  {| path := path s; written := written s; ended := true |}.

Definition withDownload (c : Client.t) (d : option Download.t) : Client.t :=
  {| Client.ws := Client.ws c; Client.id := Client.id c;
     Client.connectedAt := Client.connectedAt c;
     Client.currentDownload := d |}.

Definition handleFileChunk (st : State) (now : N)
    (clientId downloadId chunk : string) (chunkIndex : nat)
  : State * list Effect :=
  match JsMap.get clientId (clients st) with
  | None => (st, [Log (LogNotFound clientId)])
  | Some client =>
      (* Initialize download tracking if not exists *)
      let '(d, ss, log1) :=
        match Client.currentDownload client with
        | Some d => (d, streams st, [])
        | None =>
            let fileName := fileNameOf clientId downloadId in
            let filePath := join DOWNLOAD_DIR fileName in
            let '(ss, h) := createWriteStream (streams st) filePath in
            ({| Download.id := downloadId;
                Download.filePath := filePath;
                Download.stream := h;
                Download.chunksReceived := 0;
                Download.startTime := now |},
             ss, [Log (LogStarting clientId fileName)])
        end in
      (* Write chunk to file *)
      let buffer := Base64.decode chunk in
      let ss := alter (write buffer) (Download.stream d) ss in
      let d :=
        {| Download.id := Download.id d;
           Download.filePath := Download.filePath d;
           Download.stream := Download.stream d;
           Download.chunksReceived := S (Download.chunksReceived d);
           Download.startTime := Download.startTime d |} in
      (* Log progress every 100 chunks *)
      let log2 :=
        if Nat.eqb (Download.chunksReceived d mod 100) 0
        then [Log (LogProgress (Download.chunksReceived d) clientId)]
        else [] in
      ({| clients :=
            JsMap.set clientId (withDownload client (Some d)) (clients st);
          streams := ss |},
       log1 ++ log2)
  end.

Definition handleFileComplete (st : State) (now : N)
    (clientId downloadId : string) (totalChunks fileSize : nat)
  : State * list Effect :=
  match JsMap.get clientId (clients st) with
  | None => (st, [Log (LogNotFound clientId)])
  | Some client =>
      match Client.currentDownload client with
      | Some d =>
          ({| clients :=
                JsMap.set clientId (withDownload client None) (clients st);
              streams := alter endStream (Download.stream d) (streams st) |},
           [Log (LogComplete clientId (Download.filePath d)
                   totalChunks fileSize)])
      | None => (st, [])
      end
  end.

Definition handleClientError (st : State) (clientId error : string)
  : State * list Effect :=
  (st, [Log (LogClientError clientId error)]).

(** The value the promise of [requestFileDownload] settles with. *)
Record Handle : Type := mkHandle {
  h_clientId : string;
  h_downloadId : string;
  h_status : string
}.

Inductive RequestError : Type :=
  | ClientNotConnected (clientId : string).

Definition downloadIdAt (now : N) : string := "download_" +:+ decimal now.

(** The executor of the promise runs at once, so the promise is settled
    when [requestFileDownload] returns. *)
Definition requestFileDownload (st : State) (now : N) (clientId : string)
  : (RequestError + Handle) * State * list Effect :=
  match JsMap.get clientId (clients st) with
  | None => (inl (ClientNotConnected clientId), st, [])
  | Some client =>
      let downloadId := downloadIdAt now in
      (inr {| h_clientId := clientId; h_downloadId := downloadId;
              h_status := "initiated" |},
       st,
       [Log (LogRequesting clientId);
        Send (Client.ws client) (MsgDownloadRequest downloadId)])
  end.

(** The scan of the ['close'] listener: the first entry, in insertion
    order, whose connection is the closed one. *)
Fixpoint findByWs (ws : nat) (m : list (string * Client.t)) : option string :=
  match m with
  | [] => None
  | (clientId, client) :: r =>
      if Nat.eqb (Client.ws client) ws then Some clientId else findByWs ws r
  end.

Definition onClose (st : State) (ws : nat) : State * list Effect :=
  match findByWs ws (clients st) with
  | Some clientId =>
      ({| clients := JsMap.delete clientId (clients st);
          streams := streams st |},
       [Log (LogDisconnected clientId)])
  | None => (st, [])
  end.

(** The ['message'] listener of connection [ws]. *)
Definition onMessage (st : State) (now : N) (ws : nat) (data : ClientMsg)
  : State * list Effect :=
  match data with
  | MsgRegister clientId => handleClientRegistration st now ws clientId
  | MsgFileChunk clientId downloadId chunk chunkIndex =>
      handleFileChunk st now clientId downloadId chunk chunkIndex
  | MsgFileComplete clientId downloadId totalChunks fileSize =>
      handleFileComplete st now clientId downloadId totalChunks fileSize
  | MsgError clientId _ error => handleClientError st clientId error
  | MsgOther type => (st, [Log (LogUnknownType type)])
  end.

(** Messages of one connection, delivered in order; each is stamped
    with the clock reading at its arrival. *)
Fixpoint deliver (st : State) (ws : nat) (msgs : list (N * ClientMsg))
  : State :=
  match msgs with
  | [] => st
  | (now, data) :: rest => deliver (fst (onMessage st now ws data)) ws rest
  end.

Definition lookup (st : State) (clientId : string) : option Client.t :=
  JsMap.get clientId (clients st).

(** The download record after one more chunk, and the one a first chunk
    creates. *)
Definition received (d : Download.t) : Download.t :=
  {| Download.id := Download.id d;
     Download.filePath := Download.filePath d;
     Download.stream := Download.stream d;
     Download.chunksReceived := S (Download.chunksReceived d);
     Download.startTime := Download.startTime d |}.

Definition opened (st : State) (now : N) (clientId downloadId : string)
  : Download.t :=
  {| Download.id := downloadId;
     Download.filePath := join DOWNLOAD_DIR (fileNameOf clientId downloadId);
     Download.stream := List.length (streams st);
     Download.chunksReceived := 0;
     Download.startTime := now |}.

End WithConfig.

(** The [ws.send] calls among the effects, in order. *)
Fixpoint sends (effects : list Effect) : list (nat * ServerMsg) :=
  match effects with
  | [] => []
  | Send ws m :: r => (ws, m) :: sends r
  | Log _ :: r => sends r
  end.

End Server.

(** ** The states and inputs of the worked examples *)
Module Scenario.
Import Sender Server.

Definition demoConfig : Config :=
  {| CLIENT_ID := "restaurant-1"; CHUNK_SIZE := 2%positive |}.

Definition demoContent : list byte := [x68; x65; x6c; x6c; x6f].

(** A server on which [restaurant-1] registered over connection 7. *)
Definition demoServer : State :=
  fst (handleClientRegistration initial 1000 7 "restaurant-1").

Definition demoArrivals : list (N * ClientMsg) :=
  map (fun m => (2000, m))
    (handleDownloadRequest demoConfig (Some demoContent) (fun _ => true)
       "download_1500").

(** A server on which [restaurant-1] has a download in progress: one
    chunk of session [download_1500] has arrived and its sink is open. *)
Definition busyServer : State :=
  deliver "downloads" demoServer 7
    [(1501, MsgFileChunk "restaurant-1" "download_1500" "aGU=" 0%nat)].

Definition busyDownload : Download.t :=
  {| Download.id := "download_1500";
     Download.filePath :=
       "downloads/restaurant-1_download_1500_file_to_download.txt";
     Download.stream := 0%nat;
     Download.chunksReceived := 1%nat;
     Download.startTime := 1501 |}.

Definition busyClient : Client.t :=
  {| Client.ws := 7%nat; Client.id := "restaurant-1";
     Client.connectedAt := 1000;
     Client.currentDownload := Some busyDownload |}.

Definition sinkOf1500 (bytes : list byte) (isEnded : bool) : WriteStream :=
  {| path := "downloads/restaurant-1_download_1500_file_to_download.txt";
     written := bytes;
     ended := isEnded |}.

End Scenario.

(** ** The whole server as a machine: every entry point as an input *)
Module System.
Import Server.

Inductive Input : Type :=
  (** a parsed message arrives on connection [ws] *)
  | Message (now : N) (ws : nat) (data : ClientMsg)
  (** connection [ws] closes *)
  | Close (ws : nat)
  (** [requestFileDownload(clientId)] is called *)
  | Request (now : N) (clientId : string).

Definition step (DOWNLOAD_DIR : string) (st : State) (i : Input)
  : State * list Effect :=
  match i with
  | Message now ws data => onMessage DOWNLOAD_DIR st now ws data
  | Close ws => onClose st ws
  | Request now clientId =>
      let '(_, st', effects) := requestFileDownload st now clientId in
      (st', effects)
  end.

Fixpoint run (DOWNLOAD_DIR : string) (st : State) (inputs : list Input)
  : State * list Effect :=
  match inputs with
  | [] => (st, [])
  | i :: rest =>
      let '(st1, e1) := step DOWNLOAD_DIR st i in
      let '(st2, e2) := run DOWNLOAD_DIR st1 rest in
      (st2, e1 ++ e2)
  end.

(** The states the server can be in. *)
Definition reachable (DOWNLOAD_DIR : string) (st : State) : Prop :=
  exists inputs, st = fst (run DOWNLOAD_DIR initial inputs).

(** Each download record names a stream of the store that is open and
    writes to the path of the record; two clients never hold the same
    stream; every entry is filed under its own id, once. *)
Record consistent (st : State) : Prop := mkConsistent {
  keys_once : List.NoDup (map fst (clients st));
  filed_by_id :
    forall k c, In (k, c) (clients st) -> Client.id c = k;
  sink_open :
    forall k c d,
      JsMap.get k (clients st) = Some c ->
      Client.currentDownload c = Some d ->
      exists s,
        streams st !! Download.stream d = Some s
        /\ ended s = false /\ path s = Download.filePath d;
  sinks_apart :
    forall k1 k2 c1 c2 d1 d2,
      k1 <> k2 ->
      JsMap.get k1 (clients st) = Some c1 ->
      JsMap.get k2 (clients st) = Some c2 ->
      Client.currentDownload c1 = Some d1 ->
      Client.currentDownload c2 = Some d2 ->
      Download.stream d1 <> Download.stream d2
}.

(** The total of the bytes held by the sinks. *)
Definition storedBytes (st : State) : nat :=
  list_sum (map (fun s => List.length (written s)) (streams st)).

(** A sink as it is later: the same path, the bytes it had and maybe
    more after them, and no change at all once it is ended. *)
Definition extends (s s' : WriteStream) : Prop :=
  path s' = path s
  /\ (exists more, written s' = written s ++ more)
  /\ (ended s = true -> s' = s).

(** No download record refers to the stream [h]. *)
Definition unreferenced (h : nat) (st : State) : Prop :=
  forall k c d,
    JsMap.get k (clients st) = Some c ->
    Client.currentDownload c = Some d ->
    Download.stream d <> h.

(** Whether an envelope acts on the entry of [clientId]. *)
Definition names (clientId : string) (data : ClientMsg) : bool :=
  match data with
  | MsgRegister c => String.eqb c clientId
  | MsgFileChunk c _ _ _ => String.eqb c clientId
  | MsgFileComplete c _ _ _ => String.eqb c clientId
  | MsgError _ _ _ => false
  | MsgOther _ => false
  end.

(** Whether an input acts on the entry of [clientId], held by the
    connection [ws]. *)
Definition touches (clientId : string) (ws : nat) (i : Input) : bool :=
  match i with
  | Message _ _ data => names clientId data
  | Close ws' => Nat.eqb ws' ws
  | Request _ _ => false
  end.

(** Whether an input replaces or removes the entry that connection [ws]
    holds under [clientId]: a registration under the id, or the close of
    the connection. *)
Definition displaces (clientId : string) (ws : nat) (i : Input) : bool :=
  match i with
  | Message _ _ (MsgRegister c) => String.eqb c clientId
  | Close ws' => Nat.eqb ws' ws
  | _ => false
  end.

(** The envelopes among the inputs that name [clientId], in order. *)
Fixpoint namedTo (clientId : string) (inputs : list Input) : list ClientMsg :=
  match inputs with
  | [] => []
  | Message _ _ data :: rest =>
      if names clientId data then data :: namedTo clientId rest
      else namedTo clientId rest
  | _ :: rest => namedTo clientId rest
  end.

End System.

(** ** The REST shell of the server *)
Module Api.
Import Server.

(** One element of the answer of [GET /api/clients]. *)
Record ClientInfo : Type := mkClientInfo {
  info_id : string;
  info_connectedAt : N;
  hasActiveDownload : bool
}.

Definition infoOf (client : Client.t) : ClientInfo :=
  {| info_id := Client.id client;
     info_connectedAt := Client.connectedAt client;
     hasActiveDownload :=
       match Client.currentDownload client with
       | Some _ => true
       | None => false
       end |}.

Record ClientList : Type := mkClientList {
  count : nat;
  listed : list ClientInfo
}.

(** [GET /api/clients] *)
Definition getClients (st : State) : ClientList :=
  let clientList := map (fun e => infoOf (snd e)) (clients st) in
  {| count := List.length clientList; listed := clientList |}.

(** [GET /health]: [clients.size] *)
Definition connectedClients (st : State) : nat := List.length (clients st).

Inductive Body : Type :=
  | BodyError (error : string)
  | BodySuccess (message : string) (data : Handle)
  | BodyFailure (error : string).

Record Response : Type := mkResponse {
  status : nat;
  body : Body
}.

(** The message of the error [requestFileDownload] rejects with. *)
Definition errorMessage (e : RequestError) : string :=
  match e with
  | ClientNotConnected clientId =>
      "Client " +:+ clientId +:+ " is not connected"
  end.

(** [POST /api/download]; [clientId] is the field of the body, [None]
    when absent. The empty string is falsy as well. *)
Definition postDownload (st : State) (now : N) (clientId : option string)
  : Response * State * list Effect :=
  match clientId with
  | None => ({| status := 400; body := BodyError "clientId is required" |}, st, [])
  | Some EmptyString =>
      ({| status := 400; body := BodyError "clientId is required" |}, st, [])
  | Some clientId =>
      match requestFileDownload st now clientId with
      | (inr result, st', effects) =>
          ({| status := 200;
              body := BodySuccess
                        ("Download initiated from client " +:+ clientId)
                        result |},
           st', effects)
      | (inl error, st', effects) =>
          ({| status := 404; body := BodyFailure (errorMessage error) |},
           st', effects)
      end
  end.

End Api.

(** ** The command-line mode [download <clientId>] of the server *)
Module Cli.
Import Server.

(** One run of the callback of [checkInterval]. [polling] tells whether
    the interval is still set; the second component is the exit code of
    [process.exit], if it is reached. *)
Definition checkTick (clientId : string) (polling : bool) (st : State)
    (now : N) : bool * option nat * list Effect :=
  if polling then
    if JsMap.has clientId (clients st) then
      (* clearInterval(checkInterval) *)
      match requestFileDownload st now clientId with
      | (inr _, _, effects) => (false, None, effects)
      | (inl _, _, effects) => (false, Some 1%nat, effects)
      end
    else (true, None, [])
  else (false, None, []).

(** The callback over successive ticks; each tick finds the server in
    some state and reads the clock. A reached [process.exit] stops all. *)
Fixpoint poll (clientId : string) (polling : bool) (ticks : list (State * N))
  : option nat * list Effect :=
  match ticks with
  | [] => (None, [])
  | (st, now) :: rest =>
      match checkTick clientId polling st now with
      | (_, Some code, effects) => (Some code, effects)
      | (polling', None, effects) =>
          let '(code, effects') := poll clientId polling' rest in
          (code, effects ++ effects')
      end
  end.

End Cli.

(** ** The client: connection and reconnection *)
Module Connection.
Import Sender.

(** The globals [ws] and [reconnectInterval] of the client, with the
    sockets and intervals made so far; [running] lists the intervals that
    are set and not cleared. *)
Record State : Type := mkState {
  ws : option nat;
  reconnectInterval : option nat;
  sockets : nat;
  intervals : nat;
  running : list nat
}.

Inductive Event : Type :=
  | Open (socket : nat)
  | Received (socket : nat) (m : ServerMsg)
  | Closed (socket : nat)
  | Errored (socket : nat)
  | Tick (interval : nat).

(** [ws.send] on the socket the global [ws] holds. *)
Inductive Action : Type :=
  | SendOn (socket : option nat) (m : ClientMsg).

Definition start : State :=
  {| ws := None; reconnectInterval := None; sockets := 0; intervals := 0;
     running := [] |}.

(** [connect()]: a new socket, kept in [ws]. *)
Definition connect (st : State) : State :=
  {| ws := Some (sockets st);
     reconnectInterval := reconnectInterval st;
     sockets := S (sockets st);
     intervals := intervals st;
     running := running st |}.

Definition attemptReconnect (st : State) : State :=
  match reconnectInterval st with
  | Some _ => st
  | None =>
      {| ws := ws st;
         reconnectInterval := Some (intervals st);
         sockets := sockets st;
         intervals := S (intervals st);
         running := intervals st :: running st |}
  end.

Definition clearInterval (t : nat) (running : list nat) : list nat :=
  List.filter (fun t' => negb (Nat.eqb t' t)) running.

(** The listeners [connect] puts on a socket, and the callback of the
    reconnect interval. [file] and [flushed] are as for
    [handleDownloadRequest]. *)
Definition handle (cfg : Config) (file : option (list byte))
    (flushed : nat -> bool) (st : State) (e : Event) : State * list Action :=
  match e with
  | Open _ =>
      let st' :=
        match reconnectInterval st with
        | Some t =>
            {| ws := ws st; reconnectInterval := None;
               sockets := sockets st; intervals := intervals st;
               running := clearInterval t (running st) |}
        | None => st
        end in
      (st', [SendOn (ws st) (MsgRegister (CLIENT_ID cfg))])
  | Received _ (MsgRegistered _) => (st, [])
  | Received _ (MsgDownloadRequest downloadId) =>
      (st, map (SendOn (ws st))
             (handleDownloadRequest cfg file flushed downloadId))
  | Closed _ => (attemptReconnect st, [])
  | Errored _ => (st, [])
  | Tick t =>
      if existsb (Nat.eqb t) (running st) then (connect st, []) else (st, [])
  end.

Definition message (a : Action) : ClientMsg :=
  match a with SendOn _ m => m end.

Fixpoint handleAll (cfg : Config) (file : option (list byte))
    (flushed : nat -> bool) (st : State) (events : list Event) : State :=
  match events with
  | [] => st
  | e :: rest =>
      handleAll cfg file flushed (fst (handle cfg file flushed st e)) rest
  end.

End Connection.

(** ** The script that generates the test file *)
Module Generator.

Definition FILE_SIZE : N := 100 * 1024 * 1024.
Definition CHUNK_SIZE : N := 1024 * 1024.

Definition chars : string :=
  "ABCDEFGHIJKLMNOPQRSTUVWXYZabcdefghijklmnopqrstuvwxyz0123456789"
    +:+ String (ascii_of_nat 10) "".

(** [chars.charAt(i)]: the empty string out of range. *)
Definition charAt (i : nat) : list ascii :=
  match String.get i chars with
  | Some c => [c]
  | None => []
  end.

(** The inner [for] loop. [random k] is the index the [k]-th draw gives,
    [Math.floor(Math.random() * chars.length)]. *)
Fixpoint randomChunk (random : nat -> nat) (drawn : nat) (chunkSize : nat)
  : list ascii :=
  match chunkSize with
  | O => []
  | S n => charAt (random drawn) ++ randomChunk random (S drawn) n
  end.

Record State : Type := mkState {
  bytesWritten : N;
  (** the arguments of the calls of [stream.write], in order *)
  writes : list (list ascii);
  drawn : nat;
  (** the times the script waited for ['drain'] *)
  drains : nat;
  ended : bool
}.

Definition start : State :=
  {| bytesWritten := 0; writes := []; drawn := 0; drains := 0;
     ended := false |}.

(** [writeChunk()], with the [while] loop and the re-entry on ['drain']
    unrolled into one recursion: [canContinue] is the local of the
    running call, [accepts k] is what the [k]-th [stream.write] returns.
    The sizes are parameters; the script runs it with [FILE_SIZE] and
    [CHUNK_SIZE]. *)
Fixpoint writeChunk (fuel : nat) (accepts : nat -> bool)
    (random : nat -> nat) (fileSize chunkSize : N) (g : State)
    (canContinue : bool) : State :=
  match fuel with
  | O => g
  | S fuel' =>
      if bytesWritten g <? fileSize then
        if canContinue then
          let remainingBytes := fileSize - bytesWritten g in
          let size := N.min chunkSize remainingBytes in
          let chunk := randomChunk random (drawn g) (N.to_nat size) in
          writeChunk fuel' accepts random fileSize chunkSize
            {| bytesWritten := bytesWritten g + size;
               writes := writes g ++ [chunk];
               drawn := (drawn g + N.to_nat size)%nat;
               drains := drains g;
               ended := false |}
            (accepts (List.length (writes g)))
        else
          (* stream.once('drain', writeChunk) *)
          writeChunk fuel' accepts random fileSize chunkSize
            {| bytesWritten := bytesWritten g;
               writes := writes g;
               drawn := drawn g;
               drains := S (drains g);
               ended := false |}
            true
      else
        (* stream.end() *)
        {| bytesWritten := bytesWritten g;
           writes := writes g;
           drawn := drawn g;
           drains := drains g;
           ended := true |}
  end.

End Generator.

(** * Properties *)

Ltac Zify.zify_post_hook ::= Z.to_euclidean_division_equations.

(** ** The codec inverts itself *)
Module Base64Facts.
Import Base64.

Lemma in_sextetRange v : v < 64 -> In v sextetRange.
Proof.
  intros Hv. unfold sextetRange.
  rewrite <- (N2Nat.id v). apply in_map, in_seq. lia.
Qed.

Lemma legal_all : forallb legal sextetRange = true.
Proof. vm_compute. reflexivity. Qed.

Lemma unbase64_encodeSextet v :
  v < 64 ->
  unbase64 (encodeSextet v) = Some v /\ Ascii.eqb (encodeSextet v) pad = false.
Proof.
  intros Hv.
  pose proof (proj1 (forallb_forall legal sextetRange) legal_all v
                (in_sextetRange v Hv)) as H.
  unfold legal in H. destruct (unbase64 (encodeSextet v)) as [v'|]; [|discriminate].
  apply andb_prop in H as [H1 H2]. apply N.eqb_eq in H1. subst v'.
  split; [reflexivity|]. now destruct (Ascii.eqb (encodeSextet v) pad).
Qed.

Lemma sextets_cons v r :
  v < 64 -> sextets (String (encodeSextet v) r) = v :: sextets r.
Proof.
  intros Hv. destruct (unbase64_encodeSextet v Hv) as [H1 H2].
  simpl. rewrite H2, H1. reflexivity.
Qed.

Lemma toByte_to_N b : toByte (Byte.to_N b) = b.
Proof.
  unfold toByte. pose proof (Byte.to_N_bounded b).
  rewrite N.mod_small by lia. now rewrite Byte.of_to_N.
Qed.

Lemma sextet_bounds a b :
  a < 256 -> b < 256 ->
  sextet1 a < 64 /\ sextet2 a b < 64 /\ sextet3 a b < 64 /\ sextet4 a < 64.
Proof. unfold sextet1, sextet2, sextet3, sextet4. intros. repeat split; lia. Qed.

Lemma octet1_sextets a b :
  b < 256 -> octet1 (sextet1 (Byte.to_N a)) (sextet2 (Byte.to_N a) b) = a.
Proof.
  intros Hb. pose proof (Byte.to_N_bounded a).
  unfold octet1, sextet1, sextet2.
  replace (_ + _) with (Byte.to_N a) by lia. apply toByte_to_N.
Qed.

Lemma octet2_sextets a b c :
  a < 256 -> c < 256 ->
  octet2 (sextet2 a (Byte.to_N b)) (sextet3 (Byte.to_N b) c) = b.
Proof.
  intros Ha Hc. pose proof (Byte.to_N_bounded b).
  unfold octet2, sextet2, sextet3.
  replace (_ + _) with (Byte.to_N b) by lia. apply toByte_to_N.
Qed.

Lemma octet3_sextets b c :
  b < 256 -> octet3 (sextet3 b (Byte.to_N c)) (sextet4 (Byte.to_N c)) = c.
Proof.
  intros Hb. pose proof (Byte.to_N_bounded c).
  unfold octet3, sextet3, sextet4.
  replace (_ + _) with (Byte.to_N c) by lia. apply toByte_to_N.
Qed.

(** Induction over a buffer three octets at a time. *)
Lemma list_ind3 {A} (P : list A -> Prop) :
  P [] -> (forall a, P [a]) -> (forall a b, P [a; b]) ->
  (forall a b c l, P l -> P (a :: b :: c :: l)) ->
  forall l, P l.
Proof.
  intros H0 H1 H2 H3.
  assert (forall l, P l /\ (forall a, P (a :: l)) /\ (forall a b, P (a :: b :: l)))
    as H.
  { induction l as [|x l (IH0 & IH1 & IH2)]; auto. }
  intros l. apply H.
Qed.

Theorem decode_encode (bs : list byte) : decode (encode bs) = bs.
Proof.
  unfold decode. induction bs as [|a|a b|a b c l IH] using list_ind3.
  - reflexivity.
  - pose proof (Byte.to_N_bounded a).
    destruct (sextet_bounds (Byte.to_N a) 0) as (B1 & B2 & _); [lia..|].
    cbn [encode]. rewrite !sextets_cons by assumption. cbn [sextets octets].
    rewrite Ascii.eqb_refl. now rewrite octet1_sextets.
  - pose proof (Byte.to_N_bounded a). pose proof (Byte.to_N_bounded b).
    destruct (sextet_bounds (Byte.to_N a) (Byte.to_N b)) as (B1 & B2 & _); [lia..|].
    destruct (sextet_bounds (Byte.to_N b) 0) as (_ & _ & B3 & _); [lia..|].
    cbn [encode]. rewrite !sextets_cons by assumption. cbn [sextets octets].
    rewrite Ascii.eqb_refl.
    rewrite octet1_sextets, octet2_sextets by lia. reflexivity.
  - pose proof (Byte.to_N_bounded a). pose proof (Byte.to_N_bounded b).
    pose proof (Byte.to_N_bounded c).
    destruct (sextet_bounds (Byte.to_N a) (Byte.to_N b)) as (B1 & B2 & _); [lia..|].
    destruct (sextet_bounds (Byte.to_N b) (Byte.to_N c)) as (_ & _ & B3 & _); [lia..|].
    destruct (sextet_bounds (Byte.to_N c) 0) as (_ & _ & _ & B4); [lia..|].
    cbn [encode]. rewrite !sextets_cons by assumption. cbn [octets].
    rewrite octet1_sextets, octet2_sextets, octet3_sextets by lia.
    now rewrite IH.
Qed.

End Base64Facts.

(** ** The sender *)
Module SenderFacts.
Import Sender Trace.
Local Open Scope nat_scope.

Lemma readChunks_nil fuel n : readChunks fuel n [] = [].
Proof. now destruct fuel. Qed.

Lemma readChunks_concat n : 0 < n ->
  forall fuel B, List.length B <= fuel -> concat (readChunks fuel n B) = B.
Proof.
  intros Hn. induction fuel as [|fuel IH]; intros B HB.
  - destruct B; [reflexivity | simpl in HB; lia].
  - destruct B as [|b B]; [reflexivity|].
    cbn [readChunks concat]. rewrite IH.
    + apply take_drop.
    + rewrite length_drop. simpl in *. lia.
Qed.

Lemma readChunks_bounded n : 0 < n ->
  forall fuel B,
    Forall (fun c => 0 < List.length c <= n) (readChunks fuel n B).
Proof.
  intros Hn. induction fuel as [|fuel IH]; intros B; [constructor|].
  destruct B as [|b B]; [constructor|].
  cbn [readChunks]. constructor; [|apply IH].
  rewrite length_take. simpl. lia.
Qed.


Lemma pump_flushed cfg downloadId fileSize flushed :
  (forall i, flushed i = true) ->
  forall cs t,
    pump cfg downloadId fileSize flushed t (map Data cs ++ [End])
    = chunkMsgs (CLIENT_ID cfg) downloadId (chunkIndex t) cs
        ++ [MsgFileComplete (CLIENT_ID cfg) downloadId
              (chunkIndex t + List.length cs) fileSize].
Proof.
  intros Hf. induction cs as [|c cs IH]; intros t.
  - simpl. now rewrite Nat.add_0_r.
  - cbn [map app pump]. rewrite Hf, IH. cbn [chunkMsgs sent chunkIndex app List.length].
    now rewrite Nat.add_succ_r.
Qed.


Lemma completions_app l1 l2 :
  completions (l1 ++ l2) = completions l1 ++ completions l2.
Proof.
  induction l1 as [|m l1 IH]; [reflexivity|].
  destruct m; simpl; now rewrite IH.
Qed.


Lemma completions_chunkMsgs clientId downloadId cs : forall i,
  completions (chunkMsgs clientId downloadId i cs) = [].
Proof. induction cs as [|c cs IH]; intros i; simpl; auto. Qed.

Lemma handleDownloadRequest_flushed cfg content flushed downloadId :
  (forall i, flushed i = true) ->
  handleDownloadRequest cfg (Some content) flushed downloadId
  = chunkMsgs (CLIENT_ID cfg) downloadId 0 (chunksOf cfg content)
      ++ [MsgFileComplete (CLIENT_ID cfg) downloadId
            (List.length (chunksOf cfg content)) (List.length content)].
Proof.
  intros Hf. unfold handleDownloadRequest, createReadStream.
  now rewrite pump_flushed.
Qed.

Lemma chunksOf_concat cfg content : concat (chunksOf cfg content) = content.
Proof. apply readChunks_concat; lia. Qed.


End SenderFacts.

(** ** The map of clients *)
Module JsMapFacts.
Import JsMap.
Section Facts.
Context {V : Type}.
Implicit Types (k : string) (v : V) (m : list (string * V)).

Lemma get_set_eq k v m : get k (set k v m) = Some v.
Proof.
  induction m as [|[k' v'] m IH]; simpl.
  - now rewrite String.eqb_refl.
  - destruct (String.eqb k k') eqn:E; simpl.
    + now rewrite String.eqb_refl.
    + now rewrite E.
Qed.

Lemma get_set_ne k k' v m : k <> k' -> get k' (set k v m) = get k' m.
Proof.
  intros Hne. induction m as [|[k2 v2] m IH]; simpl.
  - destruct (String.eqb_spec k' k); congruence.
  - destruct (String.eqb_spec k k2) as [->|Hk]; simpl.
    + destruct (String.eqb_spec k' k2); congruence.
    + now rewrite IH.
Qed.

Lemma set_set k v1 v2 m : set k v2 (set k v1 m) = set k v2 m.
Proof.
  induction m as [|[k' v'] m IH]; simpl.
  - now rewrite String.eqb_refl.
  - destruct (String.eqb k k') eqn:E; simpl.
    + now rewrite String.eqb_refl.
    + now rewrite E, IH.
Qed.

Lemma get_delete_eq k m : get k (delete k m) = None.
Proof.
  induction m as [|[k' v'] m IH]; simpl; [reflexivity|].
  destruct (String.eqb k k') eqn:E; simpl; [assumption|].
  now rewrite E.
Qed.

Lemma get_delete_ne k k' m : k <> k' -> get k' (delete k m) = get k' m.
Proof.
  intros Hne. induction m as [|[k2 v2] m IH]; simpl; [reflexivity|].
  destruct (String.eqb_spec k k2) as [->|Hk]; simpl.
  - destruct (String.eqb_spec k' k2); congruence.
  - now rewrite IH.
Qed.

Lemma has_get k m : has k m = true <-> exists v, get k m = Some v.
Proof.
  unfold has. destruct (get k m); split; eauto; try discriminate.
  intros [v Hv]. discriminate.
Qed.
End Facts.
End JsMapFacts.

(** ** The receiver *)
Module ServerFacts.
Import Server JsMap JsMapFacts Trace SenderFacts.

Section WithConfig.
Variable DOWNLOAD_DIR : string.

(** A chunk for a client with a download in progress. *)
Lemma handleFileChunk_open st now clientId downloadId chunk chunkIndex c d :
  get clientId (clients st) = Some c ->
  Client.currentDownload c = Some d ->
  fst (handleFileChunk DOWNLOAD_DIR st now clientId downloadId chunk chunkIndex)
  = {| clients := set clientId (withDownload c (Some (received d))) (clients st);
       streams := alter (write (Base64.decode chunk)) (Download.stream d)
                    (streams st) |}.
Proof.
  intros Hget Hd. unfold handleFileChunk. rewrite Hget, Hd. reflexivity.
Qed.

(** A chunk for a client without one: a sink is opened first. *)
Lemma handleFileChunk_fresh st now clientId downloadId chunk chunkIndex c :
  get clientId (clients st) = Some c ->
  Client.currentDownload c = None ->
  fst (handleFileChunk DOWNLOAD_DIR st now clientId downloadId chunk chunkIndex)
  = {| clients :=
         set clientId
           (withDownload c (Some (received (opened DOWNLOAD_DIR st now clientId downloadId))))
           (clients st);
       streams :=
         streams st
           ++ [{| path := join DOWNLOAD_DIR (fileNameOf clientId downloadId);
                  written := Base64.decode chunk;
                  ended := false |}] |}.
Proof.
  intros Hget Hd. unfold handleFileChunk. rewrite Hget, Hd.
  cbn [createWriteStream fst]. f_equal.
  rewrite alter_app_r_alt by (cbn; lia).
  cbn [Download.stream]. now rewrite Nat.sub_diag.
Qed.

Lemma handleFileComplete_open st now clientId downloadId totalChunks fileSize c d :
  get clientId (clients st) = Some c ->
  Client.currentDownload c = Some d ->
  fst (handleFileComplete st now clientId downloadId totalChunks fileSize)
  = {| clients := set clientId (withDownload c None) (clients st);
       streams := alter endStream (Download.stream d) (streams st) |}.
Proof.
  intros Hget Hd. unfold handleFileComplete. now rewrite Hget, Hd.
Qed.

Lemma handleFileComplete_idle st now clientId downloadId totalChunks fileSize c :
  get clientId (clients st) = Some c ->
  Client.currentDownload c = None ->
  fst (handleFileComplete st now clientId downloadId totalChunks fileSize) = st.
Proof.
  intros Hget Hd. unfold handleFileComplete. now rewrite Hget, Hd.
Qed.

(** The chunk envelopes of one transfer, delivered in order to a client
    whose sink is open: the sink grows by the buffers, in order. *)
Lemma deliver_chunkMsgs ws clientId downloadId p : forall cs i stamped st c d pre W,
  map snd stamped = chunkMsgs clientId downloadId i cs ->
  get clientId (clients st) = Some c ->
  Client.currentDownload c = Some d ->
  Download.stream d = List.length pre ->
  streams st = pre ++ [{| path := p; written := W; ended := false |}] ->
  exists c' d',
    let st' := deliver DOWNLOAD_DIR st ws stamped in
    get clientId (clients st') = Some c'
    /\ Client.currentDownload c' = Some d'
    /\ Download.stream d' = List.length pre
    /\ Download.chunksReceived d'
       = (Download.chunksReceived d + List.length cs)%nat
    /\ streams st'
       = pre ++ [{| path := p; written := W ++ concat cs; ended := false |}].
Proof.
  induction cs as [|chunk cs IH]; intros i stamped st c d pre W Hm Hget Hd Hh Hs.
  - destruct stamped; [|discriminate]. exists c, d. cbn.
    rewrite app_nil_r, Nat.add_0_r. auto.
  - destruct stamped as [|[now m] stamped]; [discriminate|].
    cbn [map snd chunkMsgs] in Hm. injection Hm as -> Hm.
    cbn [deliver onMessage].
    rewrite (handleFileChunk_open _ _ _ _ _ _ c d Hget Hd).
    destruct (IH (S i) stamped
                {| clients := set clientId (withDownload c (Some (received d)))
                                (clients st);
                   streams := alter (write (Base64.decode (Base64.encode chunk)))
                                (Download.stream d) (streams st) |}
                (withDownload c (Some (received d))) (received d) pre
                (W ++ chunk))
      as (c' & d' & H1 & H2 & H3 & H4 & H5).
    + exact Hm.
    + apply get_set_eq.
    + reflexivity.
    + exact Hh.
    + cbn [streams]. rewrite Hs, Hh, alter_app_r_alt by lia.
      rewrite Nat.sub_diag, Base64Facts.decode_encode. reflexivity.
    + exists c', d'. cbn zeta in *. rewrite H1, H2, H3, H4, H5.
      cbn [concat received Download.chunksReceived List.length].
      rewrite <- app_assoc. repeat split; lia.
Qed.

End WithConfig.
End ServerFacts.

(** ** Session identifiers and sink names *)
Module Naming.
Import Server.

Lemma chars_app s t : chars (s +:+ t) = chars s ++ chars t.
Proof. induction s as [|a s IH]; [reflexivity|]. cbn. now rewrite <- IH. Qed.

Lemma chars_inj s t : chars s = chars t -> s = t.
Proof.
  intros H. rewrite <- (String.string_of_list_ascii_of_string s),
    <- (String.string_of_list_ascii_of_string t). unfold chars in H. now rewrite H.
Qed.

(** Two texts cut at an occurrence of [u] with no [u] after it are cut at
    the same place. *)
Lemma split_at_last (u : ascii) : forall a b d1 d2 : list ascii,
  ~ In u d1 -> ~ In u d2 ->
  a ++ u :: d1 = b ++ u :: d2 -> a = b /\ d1 = d2.
Proof.
  induction a as [|x a IH]; intros [|y b] d1 d2 H1 H2 E; cbn in E.
  - injection E as E. now split.
  - injection E as <- E. exfalso. apply H1. rewrite E.
    apply in_or_app. right. now left.
  - injection E as -> E. exfalso. apply H2. rewrite <- E.
    apply in_or_app. right. now left.
  - injection E as -> E. destruct (IH b d1 d2 H1 H2 E) as [-> ->]. now split.
Qed.

Lemma digits_no_underscore d :
  ~ In underscore (chars (NilEmpty.string_of_uint d)).
Proof.
  induction d; cbn; intros H; try (destruct H as [H|H]; [discriminate|]); auto.
Qed.

Lemma decimal_no_underscore n : ~ In underscore (chars (decimal n)).
Proof.
  unfold decimal, NilZero.string_of_uint.
  destruct (N.to_uint n) eqn:E; try apply digits_no_underscore.
  cbn. intros [H|[]]. discriminate.
Qed.

Lemma to_uint_nonnil n : N.to_uint n <> Decimal.Nil.
Proof.
  destruct n as [|p]; [discriminate|]. apply DecimalPos.Unsigned.to_uint_nonnil.
Qed.

Lemma decimal_inj a b : decimal a = decimal b -> a = b.
Proof.
  unfold decimal. intros H.
  apply DecimalN.Unsigned.to_uint_inj.
  apply (f_equal NilZero.uint_of_string) in H.
  rewrite !NilZero.usu in H by apply to_uint_nonnil.
  now injection H.
Qed.

Lemma downloadIdAt_inj a b : downloadIdAt a = downloadIdAt b -> a = b.
Proof.
  unfold downloadIdAt. intros H. apply decimal_inj.
  apply chars_inj. apply (f_equal chars) in H. rewrite !chars_app in H.
  now apply app_inv_head in H.
Qed.

Lemma fileNameOf_inj c1 c2 n1 n2 :
  fileNameOf c1 (downloadIdAt n1) = fileNameOf c2 (downloadIdAt n2) ->
  c1 = c2 /\ n1 = n2.
Proof.
  unfold fileNameOf, downloadIdAt. intros H.
  apply (f_equal chars) in H. rewrite !chars_app in H.
  rewrite !app_assoc in H. apply app_inv_tail in H.
  change (chars "download_") with (chars "download" ++ [underscore]) in H.
  rewrite <- !app_assoc in H.
  change (chars "_" ++ chars "download" ++ [underscore] ++ chars (decimal n1))
    with (chars "_download" ++ underscore :: chars (decimal n1)) in H.
  change (chars "_" ++ chars "download" ++ [underscore] ++ chars (decimal n2))
    with (chars "_download" ++ underscore :: chars (decimal n2)) in H.
  rewrite !app_assoc in H.
  apply split_at_last in H as [H1 H2]; try apply decimal_no_underscore.
  apply app_inv_tail in H1. split.
  - now apply chars_inj.
  - apply decimal_inj. now apply chars_inj.
Qed.

End Naming.


(** ** The protocol, end to end *)
Module Protocol.
Import Sender Trace Server JsMap JsMapFacts Scenario SenderFacts ServerFacts Naming.

Lemma deliver_app DOWNLOAD_DIR ws : forall a b st,
  deliver DOWNLOAD_DIR st ws (a ++ b)
  = deliver DOWNLOAD_DIR (deliver DOWNLOAD_DIR st ws a) ws b.
Proof.
  induction a as [|[now m] a IH]; intros b st; [reflexivity|].
  cbn [app deliver]. apply IH.
Qed.

(** The sink a transfer of [cs] leaves behind at a client without a
    download in progress. *)
Lemma deliver_transfer DOWNLOAD_DIR ws clientId downloadId cs st c stamped
    totalChunks fileSize :
  get clientId (clients st) = Some c ->
  Client.currentDownload c = None ->
  map snd stamped
  = chunkMsgs clientId downloadId 0 cs
      ++ [MsgFileComplete clientId downloadId totalChunks fileSize] ->
  streams (deliver DOWNLOAD_DIR st ws stamped)
  = streams st
      ++ match cs with
         | [] => []
         | _ :: _ =>
             [{| path := join DOWNLOAD_DIR (fileNameOf clientId downloadId);
                 written := concat cs;
                 ended := true |}]
         end.
Proof.
  intros Hget Hd Hm.
  apply map_eq_app in Hm as (s1 & s2 & -> & Hm1 & Hm2).
  destruct s2 as [|[tc mc] [|? ?]]; try discriminate.
  cbn [map snd] in Hm2. injection Hm2 as ->.
  rewrite deliver_app.
  destruct cs as [|chunk cs].
  - destruct s1; [|discriminate]. cbn [deliver onMessage].
    rewrite (handleFileComplete_idle _ _ _ _ _ _ c Hget Hd).
    now rewrite app_nil_r.
  - destruct s1 as [|[t0 m0] s1]; [discriminate|].
    cbn [map snd chunkMsgs] in Hm1. injection Hm1 as -> Hm1.
    cbn [deliver onMessage].
    rewrite (handleFileChunk_fresh _ _ _ _ _ _ _ c Hget Hd).
    rewrite Base64Facts.decode_encode.
    match goal with |- context [deliver _ ?s ws s1] => set (st1 := s) end.
    destruct (deliver_chunkMsgs DOWNLOAD_DIR ws clientId downloadId
                (join DOWNLOAD_DIR (fileNameOf clientId downloadId))
                cs 1%nat s1 st1
                (withDownload c (Some (received (opened DOWNLOAD_DIR st t0 clientId downloadId))))
                (received (opened DOWNLOAD_DIR st t0 clientId downloadId))
                (streams st) chunk)
      as (c' & d' & H1 & H2 & H3 & _ & H5);
      [exact Hm1 | apply get_set_eq | reflexivity | reflexivity | reflexivity |].
    cbn zeta in *.
    rewrite (handleFileComplete_open _ _ _ _ _ _ c' d' H1 H2).
    cbn [streams]. rewrite H5, H3, alter_app_r_alt by lia.
    now rewrite Nat.sub_diag.
Qed.

(** C1. Round-trip integrity: the client reads the file [content] in
    buffers of at most [CHUNK_SIZE] bytes, sends each one base64-encoded
    in a chunk envelope, and the server, which decodes each payload and
    writes it to the sink in arrival order, ends with a sink that holds
    exactly [content] (no sink at all for an empty file). *)
Theorem round_trip_integrity (DOWNLOAD_DIR : string) (cfg : Config)
    (st : State) (ws : nat) (c : Client.t) (downloadId : string)
    (content : list byte) (flushed : nat -> bool)
    (stamped : list (N * ClientMsg)) :
  lookup st (CLIENT_ID cfg) = Some c ->
  Client.currentDownload c = None ->
  (forall i, flushed i = true) ->
  map snd stamped = handleDownloadRequest cfg (Some content) flushed downloadId ->
  Forall (fun chunk => (0 < List.length chunk <= Pos.to_nat (CHUNK_SIZE cfg))%nat)
    (chunksOf cfg content)
  /\ concat (chunksOf cfg content) = content
  /\ streams (deliver DOWNLOAD_DIR st ws stamped)
     = streams st
         ++ match content with
            | [] => []
            | _ :: _ =>
                [{| path := join DOWNLOAD_DIR
                              (fileNameOf (CLIENT_ID cfg) downloadId);
                    written := content;
                    ended := true |}]
            end.
Proof.
  intros Hget Hd Hf Hm.
  split; [apply readChunks_bounded; lia|].
  split; [apply chunksOf_concat|].
  rewrite handleDownloadRequest_flushed in Hm by assumption.
  rewrite (deliver_transfer _ _ _ _ _ _ c _ _ _ Hget Hd Hm).
  f_equal. rewrite chunksOf_concat.
  destruct content as [|b content]; reflexivity.
Qed.

Lemma round_trip_integrity_witness :
  streams (deliver "downloads" demoServer 7 demoArrivals)
  = [{| path := "downloads/restaurant-1_download_1500_file_to_download.txt";
        written := demoContent;
        ended := true |}].
Proof.
  refine (proj2 (proj2
    (round_trip_integrity "downloads" demoConfig demoServer 7 _ "download_1500"
       demoContent (fun _ => true) demoArrivals _ _ _ _))).
  - reflexivity.
  - reflexivity.
  - reflexivity.
  - unfold demoArrivals. rewrite map_map. apply map_id.
Defined.



(** C3, as stated, fails: the identifier a request carries need not be
    fresh. A request made in the same millisecond as an earlier one, here
    to another client, carries the identifier the earlier one carried. *)
Lemma request_identifier_not_fresh :
  let st :=
    fst (handleClientRegistration demoServer 1001 8 "restaurant-2") in
  let '(_, st1, effects1) := requestFileDownload st 1500 "restaurant-1" in
  let '(_, _, effects2) := requestFileDownload st1 1500 "restaurant-2" in
  sends effects1 = [(7%nat, MsgDownloadRequest "download_1500")]
  /\ sends effects2 = [(8%nat, MsgDownloadRequest "download_1500")].
Proof. vm_compute. split; reflexivity. Qed.

(** C3, amended. [requestFileDownload] rejects with "not connected"
    exactly when the registry has no entry for [clientId]. With an entry,
    it makes one [ws.send], of a download request over the connection of
    that entry, and settles at once with
    [{clientId, downloadId, status: 'initiated'}], leaving the state as
    it was. The identifier is [download_] followed by the clock reading
    in decimal: it differs from the identifier of any request made at
    another clock reading and is the identifier of every request made at
    the same one, whatever the client. *)
Theorem requestFileDownload_contract (st : State) (now : N)
    (clientId : string) :
  let '(result, st', effects) := requestFileDownload st now clientId in
  (result = inl (ClientNotConnected clientId) <-> lookup st clientId = None)
  /\ st' = st
  /\ match lookup st clientId with
     | None => sends effects = []
     | Some client =>
         result = inr {| h_clientId := clientId;
                         h_downloadId := "download_" +:+ decimal now;
                         h_status := "initiated" |}
         /\ sends effects
            = [(Client.ws client,
                MsgDownloadRequest ("download_" +:+ decimal now))]
     end
  /\ forall st2 now2 clientId2 h h2,
       result = inr h ->
       fst (fst (requestFileDownload st2 now2 clientId2)) = inr h2 ->
       (h_downloadId h = h_downloadId h2 <-> now = now2).
Proof.
  unfold requestFileDownload, lookup.
  destruct (get clientId (clients st)) as [client|]; cbn.
  - split; [split; discriminate|]. split; [reflexivity|].
    split; [split; reflexivity|].
    intros st2 now2 clientId2 h h2 Hh Hh2. injection Hh as <-.
    destruct (get clientId2 (clients st2)); [|discriminate].
    cbn in Hh2. injection Hh2 as <-. cbn [h_downloadId].
    split; [|now intros ->].
    intros E. apply downloadIdAt_inj. exact E.
  - split; [split; reflexivity|]. split; [reflexivity|].
    split; [reflexivity|]. discriminate.
Qed.

Lemma requestFileDownload_contract_witness :
  h_downloadId
    {| h_clientId := "restaurant-1"; h_downloadId := "download_1500";
       h_status := "initiated" |}
  = h_downloadId
      {| h_clientId := "restaurant-1"; h_downloadId := "download_1501";
         h_status := "initiated" |}
  <-> 1500 = 1501.
Proof.
  pose proof (requestFileDownload_contract demoServer 1500 "restaurant-1")
    as H.
  cbv beta iota zeta delta [requestFileDownload] in H.
  change (get "restaurant-1" (clients demoServer))
    with (Some {| Client.ws := 7%nat; Client.id := "restaurant-1";
                  Client.connectedAt := 1000;
                  Client.currentDownload := None |}) in H.
  cbv beta iota in H.
  refine (proj2 (proj2 (proj2 H)) demoServer 1501 "restaurant-1" _ _ _ _).
  - reflexivity.
  - reflexivity.
Defined.

(** C10. Chunk and completion envelopes are routed by the [clientId]
    they carry: the connection [ws] they arrive on plays no part, be it
    the connection of the entry or any other. For a [clientId] that is
    not registered the state is left as it was and nothing is sent. For a
    registered one the envelope acts on the current download of that
    client and on nothing else: a chunk appends its decoded bytes to the
    open sink of the download and counts one chunk more (or, with no
    download, opens the sink first); a completion ends that sink and
    removes the download; the other entries and the other sinks stay as
    they were. *)
Theorem routed_by_clientId (DOWNLOAD_DIR : string) (st : State) (now : N)
    (ws ws' : nat) (clientId downloadId chunk : string)
    (chunkIndex totalChunks fileSize : nat) :
  let chunkMsg := MsgFileChunk clientId downloadId chunk chunkIndex in
  let completeMsg := MsgFileComplete clientId downloadId totalChunks fileSize in
  let st1 := fst (onMessage DOWNLOAD_DIR st now ws chunkMsg) in
  let st2 := fst (onMessage DOWNLOAD_DIR st now ws completeMsg) in
  onMessage DOWNLOAD_DIR st now ws chunkMsg
    = onMessage DOWNLOAD_DIR st now ws' chunkMsg
  /\ onMessage DOWNLOAD_DIR st now ws completeMsg
     = onMessage DOWNLOAD_DIR st now ws' completeMsg
  /\ match lookup st clientId with
     | None =>
         onMessage DOWNLOAD_DIR st now ws chunkMsg
           = (st, [Log (LogNotFound clientId)])
         /\ onMessage DOWNLOAD_DIR st now ws completeMsg
            = (st, [Log (LogNotFound clientId)])
     | Some client =>
         (forall k, k <> clientId ->
            lookup st1 k = lookup st k /\ lookup st2 k = lookup st k)
         /\ sends (snd (onMessage DOWNLOAD_DIR st now ws chunkMsg)) = []
         /\ sends (snd (onMessage DOWNLOAD_DIR st now ws completeMsg)) = []
         /\ match Client.currentDownload client with
            | Some d =>
                forall s,
                  streams st !! Download.stream d = Some s ->
                  ended s = false ->
                  lookup st1 clientId
                  = Some {| Client.ws := Client.ws client;
                            Client.id := Client.id client;
                            Client.connectedAt := Client.connectedAt client;
                            Client.currentDownload :=
                              Some {| Download.id := Download.id d;
                                      Download.filePath := Download.filePath d;
                                      Download.stream := Download.stream d;
                                      Download.chunksReceived :=
                                        S (Download.chunksReceived d);
                                      Download.startTime :=
                                        Download.startTime d |} |}
                  /\ streams st1 !! Download.stream d
                     = Some {| path := path s;
                               written := written s ++ Base64.decode chunk;
                               ended := false |}
                  /\ (forall bytes,
                        chunk = Base64.encode bytes ->
                        streams st1 !! Download.stream d
                        = Some {| path := path s;
                                  written := written s ++ bytes;
                                  ended := false |})
                  /\ (forall h, h <> Download.stream d ->
                        streams st1 !! h = streams st !! h)
                  /\ lookup st2 clientId
                     = Some {| Client.ws := Client.ws client;
                               Client.id := Client.id client;
                               Client.connectedAt := Client.connectedAt client;
                               Client.currentDownload := None |}
                  /\ streams st2 !! Download.stream d
                     = Some {| path := path s;
                               written := written s;
                               ended := true |}
                  /\ (forall h, h <> Download.stream d ->
                        streams st2 !! h = streams st !! h)
            | None =>
                lookup st1 clientId
                = Some {| Client.ws := Client.ws client;
                          Client.id := Client.id client;
                          Client.connectedAt := Client.connectedAt client;
                          Client.currentDownload :=
                            Some {| Download.id := downloadId;
                                    Download.filePath :=
                                      join DOWNLOAD_DIR
                                        (fileNameOf clientId downloadId);
                                    Download.stream :=
                                      List.length (streams st);
                                    Download.chunksReceived := 1;
                                    Download.startTime := now |} |}
                /\ streams st1
                   = streams st
                       ++ [{| path := join DOWNLOAD_DIR
                                        (fileNameOf clientId downloadId);
                              written := Base64.decode chunk;
                              ended := false |}]
                /\ st2 = st
            end
     end.
Proof.
  cbn zeta. split; [reflexivity|]. split; [reflexivity|].
  unfold lookup. cbn [onMessage].
  destruct (get clientId (clients st)) as [client|] eqn:Hget.
  2: { unfold handleFileChunk, handleFileComplete. rewrite Hget.
       split; reflexivity. }
  destruct (Client.currentDownload client) as [d|] eqn:Hd.
  - split; [|split; [|split]].
    + intros k Hk.
      rewrite (handleFileChunk_open _ _ _ _ _ _ _ client d Hget Hd),
        (handleFileComplete_open _ _ _ _ _ _ client d Hget Hd).
      cbn [clients]. rewrite !get_set_ne by congruence. now split.
    + unfold handleFileChunk. rewrite Hget, Hd. cbn.
      match goal with |- context [if ?b then _ else _] => destruct b end;
        reflexivity.
    + unfold handleFileComplete. now rewrite Hget, Hd.
    + intros s Hs Ho.
      rewrite (handleFileChunk_open _ _ _ _ _ _ _ client d Hget Hd),
        (handleFileComplete_open _ _ _ _ _ _ client d Hget Hd).
      cbn [clients streams]. rewrite !get_set_eq, !list_lookup_alter_eq, Hs.
      cbn [fmap option_fmap option_map]. unfold write, endStream. rewrite Ho.
      split; [reflexivity|]. split; [reflexivity|]. split.
      { intros bytes ->. now rewrite Base64Facts.decode_encode. }
      split.
      { intros h Hh. apply list_lookup_alter_ne. congruence. }
      split; [reflexivity|]. split; [reflexivity|].
      intros h Hh. apply list_lookup_alter_ne. congruence.
  - split; [|split; [|split]].
    + intros k Hk.
      rewrite (handleFileChunk_fresh _ _ _ _ _ _ _ client Hget Hd),
        (handleFileComplete_idle _ _ _ _ _ _ client Hget Hd).
      cbn [clients]. rewrite get_set_ne by congruence. now split.
    + unfold handleFileChunk. now rewrite Hget, Hd.
    + unfold handleFileComplete. now rewrite Hget, Hd.
    + rewrite (handleFileChunk_fresh _ _ _ _ _ _ _ client Hget Hd),
        (handleFileComplete_idle _ _ _ _ _ _ client Hget Hd).
      cbn [clients streams]. rewrite get_set_eq. repeat split.
Qed.

Lemma routed_by_clientId_witness :
  streams
    (fst (onMessage "downloads" busyServer 1600 9
            (MsgFileChunk "restaurant-1" "download_1500" "bGw=" 1%nat)))
    !! 0%nat
  = Some (sinkOf1500 [x68; x65; x6c; x6c] false).
Proof.
  pose proof (routed_by_clientId "downloads" busyServer 1600 9 7
                "restaurant-1" "download_1500" "bGw=" 1%nat 1%nat 2%nat) as H.
  cbv zeta in H. destruct H as (_ & _ & H).
  change (lookup busyServer "restaurant-1") with (Some busyClient) in H.
  cbv beta iota in H. destruct H as (_ & _ & _ & H).
  change (Client.currentDownload busyClient) with (Some busyDownload) in H.
  cbv beta iota in H.
  exact (proj1 (proj2 (H (sinkOf1500 [x68; x65] false) eq_refl eq_refl))).
Defined.

(** C4, as stated, fails: a second request to a client whose session is
    in progress is accepted, the first session stays the current one, and
    the chunks of both sessions land in the one sink. *)
Lemma second_request_interleaves :
  let '(result, st, effects) :=
    requestFileDownload busyServer 1600 "restaurant-1" in
  result = inr {| h_clientId := "restaurant-1";
                  h_downloadId := "download_1600";
                  h_status := "initiated" |}
  /\ st = busyServer
  /\ sends effects = [(7%nat, MsgDownloadRequest "download_1600")]
  /\ streams
       (deliver "downloads" st 7
          [(1601, MsgFileChunk "restaurant-1" "download_1600" "aGU=" 0%nat);
           (1602, MsgFileChunk "restaurant-1" "download_1500" "bGw=" 1%nat)])
     = [sinkOf1500 [x68; x65; x68; x65; x6c; x6c] false].
Proof. vm_compute. repeat split; reflexivity. Qed.

(** C4, amended. A request to a registered client is accepted whether or
    not a download of that client is in progress, and changes nothing on
    the server; while a download is in progress every chunk that names
    the client is written to the sink of that download, whatever session
    identifier the chunk carries. *)
Theorem overlapping_sessions_share_sink (DOWNLOAD_DIR : string) (st : State)
    (client : Client.t) (d : Download.t) (clientId : string) :
  lookup st clientId = Some client ->
  Client.currentDownload client = Some d ->
  (forall now,
     exists effects,
       requestFileDownload st now clientId
       = (inr {| h_clientId := clientId; h_downloadId := downloadIdAt now;
                 h_status := "initiated" |}, st, effects)
       /\ sends effects
          = [(Client.ws client, MsgDownloadRequest (downloadIdAt now))])
  /\ (forall now downloadId chunk chunkIndex,
        fst (handleFileChunk DOWNLOAD_DIR st now clientId downloadId chunk
               chunkIndex)
        = {| clients := set clientId (withDownload client (Some (received d)))
                          (clients st);
             streams := alter (write (Base64.decode chunk)) (Download.stream d)
                          (streams st) |}).
Proof.
  intros Hget Hd. split.
  - intros now. unfold requestFileDownload. unfold lookup in Hget.
    rewrite Hget. eexists. split; reflexivity.
  - intros. now apply handleFileChunk_open.
Qed.

Lemma overlapping_sessions_share_sink_witness :
  fst (handleFileChunk "downloads" busyServer 1601 "restaurant-1"
         "download_1600" "aGU=" 0%nat)
  = {| clients :=
         [("restaurant-1",
           {| Client.ws := 7%nat; Client.id := "restaurant-1";
              Client.connectedAt := 1000;
              Client.currentDownload :=
                Some {| Download.id := "download_1500";
                        Download.filePath :=
                          "downloads/restaurant-1_download_1500_file_to_download.txt";
                        Download.stream := 0%nat;
                        Download.chunksReceived := 2%nat;
                        Download.startTime := 1501 |} |})];
       streams := [sinkOf1500 [x68; x65; x68; x65] false] |}.
Proof.
  refine (proj2 (overlapping_sessions_share_sink "downloads" busyServer
                   busyClient busyDownload "restaurant-1" _ _)
            1601 "download_1600" "aGU=" 0%nat).
  - reflexivity.
  - reflexivity.
Defined.

(** C5, as stated, fails: a chunk that arrives after the completion of
    its session opens a sink again and its bytes are written. *)
Lemma chunk_after_complete_opens_sink :
  streams
    (deliver "downloads" busyServer 7
       [(1700, MsgFileComplete "restaurant-1" "download_1500" 1%nat 2%nat);
        (1701, MsgFileChunk "restaurant-1" "download_1500" "bGw=" 1%nat)])
  = [sinkOf1500 [x68; x65] true; sinkOf1500 [x6c; x6c] false].
Proof. vm_compute. reflexivity. Qed.

(** C5, amended. The completion of a download in progress ends its sink
    and drops the download record; a later chunk that names the client,
    with the same session identifier or another, finds no download and
    so opens a new sink, named after the client and the identifier the
    chunk carries, and writes its bytes there. *)
Theorem chunk_after_complete (DOWNLOAD_DIR : string) (st : State)
    (client : Client.t) (d : Download.t) (clientId downloadId : string)
    (totalChunks fileSize : nat) (now : N) :
  lookup st clientId = Some client ->
  Client.currentDownload client = Some d ->
  let st1 :=
    fst (handleFileComplete st now clientId downloadId totalChunks fileSize) in
  streams st1 = alter endStream (Download.stream d) (streams st)
  /\ lookup st1 clientId = Some (withDownload client None)
  /\ forall now' downloadId' chunk chunkIndex,
       let st2 :=
         fst (handleFileChunk DOWNLOAD_DIR st1 now' clientId downloadId' chunk
                chunkIndex) in
       streams st2
       = streams st1
           ++ [{| path := join DOWNLOAD_DIR (fileNameOf clientId downloadId');
                  written := Base64.decode chunk;
                  ended := false |}]
       /\ lookup st2 clientId
          = Some (withDownload client
                    (Some (received
                             (opened DOWNLOAD_DIR st1 now' clientId downloadId')))).
Proof.
  intros Hget Hd st1. unfold lookup in *.
  assert (Hst1 : st1 = {| clients := set clientId (withDownload client None)
                                       (clients st);
                          streams := alter endStream (Download.stream d)
                                       (streams st) |})
    by (now apply handleFileComplete_open).
  assert (Hget1 : get clientId (clients st1) = Some (withDownload client None))
    by (rewrite Hst1; apply get_set_eq).
  split; [now rewrite Hst1|]. split; [exact Hget1|].
  intros now' downloadId' chunk chunkIndex. cbn zeta.
  rewrite (handleFileChunk_fresh _ _ _ _ _ _ _ _ Hget1 eq_refl).
  cbn [streams clients]. split; [reflexivity|]. apply get_set_eq.
Qed.

Lemma chunk_after_complete_witness :
  streams
    (fst (handleFileChunk "downloads"
            (fst (handleFileComplete busyServer 1700 "restaurant-1"
                    "download_1500" 1%nat 2%nat))
            1701 "restaurant-1" "download_1500" "bGw=" 1%nat))
  = [sinkOf1500 [x68; x65] true; sinkOf1500 [x6c; x6c] false].
Proof.
  refine (proj1 (proj2 (proj2
    (chunk_after_complete "downloads" busyServer busyClient busyDownload
       "restaurant-1" "download_1500" 1%nat 2%nat 1700 _ _))
    1701 "download_1500" "bGw=" 1%nat)).
  - reflexivity.
  - reflexivity.
Defined.

Lemma findByWs_set ws clientId client m :
  Client.ws client = ws ->
  (forall k c, In (k, c) m -> k <> clientId -> Client.ws c <> ws) ->
  findByWs ws (set clientId client m) = Some clientId.
Proof.
  intros Hws. induction m as [|[k c] m IH]; intros Hother; simpl.
  - now rewrite Hws, Nat.eqb_refl.
  - destruct (String.eqb_spec clientId k) as [->|Hk]; simpl.
    + now rewrite Hws, Nat.eqb_refl.
    + assert (Client.ws c <> ws) as Hc by (apply (Hother k c); simpl; auto).
      apply Nat.eqb_neq in Hc. rewrite Hc. apply IH.
      intros k' c' Hin. apply Hother. now right.
Qed.

(** Where the closed connection holds no entry under another id, the
    registration is undone by the close. *)
Lemma register_then_close st now ws clientId :
  (forall k c, In (k, c) (clients st) -> k <> clientId -> Client.ws c <> ws) ->
  lookup (fst (onClose (fst (handleClientRegistration st now ws clientId)) ws))
    clientId = None.
Proof.
  intros Hother. unfold onClose, handleClientRegistration, lookup.
  cbn [fst clients]. rewrite findByWs_set by auto.
  cbn [fst clients]. apply get_delete_eq.
Qed.

(** C6. Where the code departs from the claim: a connection that
    registered as [a] and then as [b] is closed; the scan of the close
    listener stops at its first entry, and [b] stays registered. *)
Theorem close_leaves_second_registration :
  let st1 := fst (handleClientRegistration initial 1000 7 "a") in
  let st2 := fst (handleClientRegistration st1 1001 7 "b") in
  let st3 := fst (onClose st2 7) in
  lookup st3 "a" = None
  /\ lookup st3 "b"
     = Some {| Client.ws := 7%nat; Client.id := "b";
               Client.connectedAt := 1001;
               Client.currentDownload := None |}.
Proof. vm_compute. split; reflexivity. Qed.

(** C7, as stated, fails: the connection of a client with an open sink
    closes; the entry goes, the write stream is not ended. *)
Lemma close_does_not_end_sink :
  let st := fst (onClose busyServer 7) in
  lookup busyServer "restaurant-1" = Some busyClient
  /\ streams busyServer = [sinkOf1500 [x68; x65] false]
  /\ lookup st "restaurant-1" = None
  /\ streams st = [sinkOf1500 [x68; x65] false].
Proof. vm_compute. repeat split; reflexivity. Qed.

(** C7, amended. When a connection closes, the first entry of the
    registry that holds it is removed, and its download record with it;
    no write stream is touched, so the sink of a download in progress
    stays open, and no failed state is recorded anywhere. *)
Theorem close_removes_entry_only (st : State) (ws : nat) :
  let st' := fst (onClose st ws) in
  streams st' = streams st
  /\ match findByWs ws (clients st) with
     | Some clientId =>
         clients st' = delete clientId (clients st)
         /\ lookup st' clientId = None
     | None => st' = st
     end.
Proof.
  unfold onClose, lookup.
  destruct (findByWs ws (clients st)) as [clientId|]; cbn.
  - repeat split. apply get_delete_eq.
  - split; reflexivity.
Qed.

(** C8, as stated, fails: an error envelope for the session in progress
    leaves the download record and the open sink as they were. *)
Lemma error_envelope_changes_nothing :
  let st :=
    fst (onMessage "downloads" busyServer 1700 7
           (MsgError "restaurant-1" "download_1500" "read failed")) in
  lookup st "restaurant-1" = Some busyClient
  /\ Client.currentDownload busyClient = Some busyDownload
  /\ streams st = [sinkOf1500 [x68; x65] false].
Proof. vm_compute. repeat split; reflexivity. Qed.

(** C8, amended. An error envelope is logged and nothing else: the
    registry, the download record of the client and every sink are left
    as they were, and nothing is sent. *)
Theorem error_envelope_is_logged_only (DOWNLOAD_DIR : string) (st : State)
    (now : N) (ws : nat) (clientId downloadId error : string) :
  onMessage DOWNLOAD_DIR st now ws (MsgError clientId downloadId error)
  = (st, [Log (LogClientError clientId error)]).
Proof. reflexivity. Qed.

(** C9, as stated, fails: two requests made within one millisecond are
    given the same identifier, and for one client the same sink path. *)
Lemma same_millisecond_same_identifier :
  let '(result1, st1, _) :=
    requestFileDownload demoServer 1500 "restaurant-1" in
  let '(result2, _, _) := requestFileDownload st1 1500 "restaurant-1" in
  exists h1 h2,
    result1 = inr h1 /\ result2 = inr h2
    /\ h_downloadId h1 = h_downloadId h2
    /\ join "downloads" (fileNameOf (h_clientId h1) (h_downloadId h1))
       = join "downloads" (fileNameOf (h_clientId h2) (h_downloadId h2)).
Proof. vm_compute. do 2 eexists. repeat split; reflexivity. Qed.

(** C9, amended. The identifier of a session is the clock reading of its
    request: two requests are given the same identifier exactly when
    [Date.now()] read the same for both, whatever their clients. A sink
    is opened by a chunk that finds its client without a download, and
    the file name handed to [path.join] is made of the client id and the
    identifier the chunk carries; for identifiers of the orchestrator two
    such names are the same exactly when the client ids are the same and
    the clock read the same. A chunk that finds its client with a
    download in progress opens no sink, whatever identifier it carries,
    so that sessions with distinct identifiers need not have distinct
    sinks. *)
Theorem identifiers_follow_the_clock (DOWNLOAD_DIR : string)
    (st1 st2 : State) (now1 now2 : N) (clientId1 clientId2 : string)
    (h1 h2 : Handle) :
  fst (fst (requestFileDownload st1 now1 clientId1)) = inr h1 ->
  fst (fst (requestFileDownload st2 now2 clientId2)) = inr h2 ->
  (h_downloadId h1 = h_downloadId h2 <-> now1 = now2)
  /\ h_downloadId h1 = "download_" +:+ decimal now1
  /\ (clientId1 +:+ "_" +:+ h_downloadId h1 +:+ "_file_to_download.txt"
      = clientId2 +:+ "_" +:+ h_downloadId h2 +:+ "_file_to_download.txt"
      <-> clientId1 = clientId2 /\ now1 = now2)
  /\ (forall st client now chunk chunkIndex,
        lookup st clientId1 = Some client ->
        Client.currentDownload client = None ->
        streams
          (fst (handleFileChunk DOWNLOAD_DIR st now (h_clientId h1)
                  (h_downloadId h1) chunk chunkIndex))
        = streams st
            ++ [{| path :=
                     join DOWNLOAD_DIR
                       (clientId1 +:+ "_" +:+ h_downloadId h1
                          +:+ "_file_to_download.txt");
                   written := Base64.decode chunk;
                   ended := false |}])
  /\ (forall st client d now chunk chunkIndex,
        lookup st clientId1 = Some client ->
        Client.currentDownload client = Some d ->
        List.length
          (streams
             (fst (handleFileChunk DOWNLOAD_DIR st now (h_clientId h1)
                     (h_downloadId h1) chunk chunkIndex)))
        = List.length (streams st)).
Proof.
  unfold requestFileDownload.
  destruct (get clientId1 (clients st1)); [|discriminate].
  destruct (get clientId2 (clients st2)); [|discriminate].
  cbn [fst]. intros [= <-] [= <-]. cbn [h_clientId h_downloadId].
  split; [|split; [|split; [|split]]].
  - split; [apply downloadIdAt_inj | now intros ->].
  - reflexivity.
  - split; [apply fileNameOf_inj | now intros [-> ->]].
  - intros st client now chunk chunkIndex Hget Hd.
    now rewrite (handleFileChunk_fresh _ _ _ _ _ _ _ client Hget Hd).
  - intros st client d now chunk chunkIndex Hget Hd.
    rewrite (handleFileChunk_open _ _ _ _ _ _ _ client d Hget Hd).
    cbn [streams]. apply length_alter.
Qed.

Lemma identifiers_follow_the_clock_witness :
  (h_downloadId
     {| h_clientId := "restaurant-1"; h_downloadId := "download_1500";
        h_status := "initiated" |}
   = h_downloadId
       {| h_clientId := "restaurant-2"; h_downloadId := "download_1500";
          h_status := "initiated" |}
   <-> 1500 = 1500)
  /\ List.length
       (streams
          (fst (handleFileChunk "downloads" busyServer 1601 "restaurant-1"
                  "download_1600" "aGU=" 0%nat)))
     = List.length (streams busyServer).
Proof.
  pose proof (identifiers_follow_the_clock "downloads"
                busyServer
                (fst (handleClientRegistration demoServer 1001 8
                        "restaurant-2"))
                1600 1500 "restaurant-1" "restaurant-2"
                {| h_clientId := "restaurant-1";
                   h_downloadId := "download_1600";
                   h_status := "initiated" |}
                {| h_clientId := "restaurant-2";
                   h_downloadId := "download_1500";
                   h_status := "initiated" |}
                eq_refl eq_refl) as H1.
  pose proof (identifiers_follow_the_clock "downloads"
                demoServer
                (fst (handleClientRegistration demoServer 1001 8
                        "restaurant-2"))
                1500 1500 "restaurant-1" "restaurant-2"
                {| h_clientId := "restaurant-1";
                   h_downloadId := "download_1500";
                   h_status := "initiated" |}
                {| h_clientId := "restaurant-2";
                   h_downloadId := "download_1500";
                   h_status := "initiated" |}
                eq_refl eq_refl) as H2.
  split.
  - exact (proj1 H2).
  - exact (proj2 (proj2 (proj2 (proj2 H1))) busyServer busyClient busyDownload
             1601 "aGU=" 0%nat eq_refl eq_refl).
Defined.

End Protocol.

(** ** More on the map of clients *)
Module JsMapMore.
Import JsMap JsMapFacts.
Section Facts.
Context {V : Type}.
Implicit Types (k : string) (v : V) (m : list (string * V)).

Lemma get_In k v m : get k m = Some v -> In (k, v) m.
Proof.
  induction m as [|[k' v'] m IH]; simpl; [discriminate|].
  destruct (String.eqb_spec k k') as [->|Hk].
  - intros [= ->]. now left.
  - intros H. right. auto.
Qed.

Lemma get_None_keys k m : get k m = None -> ~ In k (map fst m).
Proof.
  induction m as [|[k' v'] m IH]; simpl; [tauto|].
  destruct (String.eqb_spec k k') as [->|Hk]; [discriminate|].
  intros H [E|Hin]; [congruence | now apply IH].
Qed.

Lemma In_get k v m : List.NoDup (map fst m) -> In (k, v) m -> get k m = Some v.
Proof.
  induction m as [|[k' v'] m IH]; simpl; [tauto|].
  intros Hnd [E|Hin].
  - injection E as -> ->. now rewrite String.eqb_refl.
  - apply List.NoDup_cons_iff in Hnd as [Hk Hnd].
    destruct (String.eqb_spec k k') as [->|Hne]; [|auto].
    exfalso. apply Hk. now apply (in_map fst) in Hin.
Qed.

Lemma in_set k v k' v' m :
  In (k', v') (set k v m) -> (k' = k /\ v' = v) \/ In (k', v') m.
Proof.
  induction m as [|[k2 v2] m IH]; simpl.
  - intros [[= <- <-]|[]]. now left.
  - destruct (String.eqb_spec k k2) as [->|Hk]; simpl.
    + intros [[= <- <-]|Hin]; [now left | right; now right].
    + intros [E|Hin]; [right; now left|].
      destruct (IH Hin) as [?|?]; [now left | right; now right].
Qed.

Lemma keys_set k v m :
  map fst (set k v m)
  = if has k m then map fst m else map fst m ++ [k].
Proof.
  unfold has. induction m as [|[k2 v2] m IH]; simpl; [reflexivity|].
  destruct (String.eqb_spec k k2) as [->|Hk]; simpl; [reflexivity|].
  rewrite IH. now destruct (get k m).
Qed.

Lemma NoDup_keys_set k v m :
  List.NoDup (map fst m) -> List.NoDup (map fst (set k v m)).
Proof.
  intros Hnd. rewrite keys_set. unfold has.
  destruct (get k m) eqn:E; [assumption|].
  apply get_None_keys in E.
  apply List.NoDup_rev in Hnd. rewrite <- (rev_involutive (_ ++ _)).
  apply List.NoDup_rev. rewrite rev_app_distr. simpl.
  constructor; [|assumption]. now rewrite <- in_rev.
Qed.

Lemma length_set k v m :
  List.length (set k v m)
  = if has k m then List.length m else S (List.length m).
Proof.
  rewrite <- (length_map fst), keys_set.
  destruct (has k m); [apply length_map|].
  rewrite length_app, length_map. simpl. lia.
Qed.

Lemma set_fresh k v m : get k m = None -> set k v m = m ++ [(k, v)].
Proof.
  induction m as [|[k2 v2] m IH]; simpl; [reflexivity|].
  destruct (String.eqb_spec k k2); [discriminate|].
  intros H. now rewrite IH.
Qed.

Lemma in_delete k e m : In e (delete k m) -> In e m.
Proof.
  induction m as [|[k2 v2] m IH]; simpl; [tauto|].
  destruct (String.eqb k k2); simpl; [auto|].
  intros [?|?]; auto.
Qed.

Lemma NoDup_keys_delete k m :
  List.NoDup (map fst m) -> List.NoDup (map fst (delete k m)).
Proof.
  induction m as [|[k2 v2] m IH]; simpl; [auto|].
  intros Hnd. apply List.NoDup_cons_iff in Hnd as [Hk Hnd].
  destruct (String.eqb k k2); simpl; [auto|].
  constructor; [|auto].
  intros Hin. apply Hk. apply in_map_iff in Hin as ([k3 v3] & <- & Hin).
  apply in_delete in Hin. now apply (in_map fst) in Hin.
Qed.

Lemma delete_absent k m : ~ In k (map fst m) -> delete k m = m.
Proof.
  induction m as [|[k2 v2] m IH]; simpl; [reflexivity|].
  intros Hk. destruct (String.eqb_spec k k2) as [->|Hne]; [tauto|].
  rewrite IH; tauto.
Qed.

Lemma length_delete k v m :
  List.NoDup (map fst m) -> get k m = Some v ->
  S (List.length (delete k m)) = List.length m.
Proof.
  induction m as [|[k2 v2] m IH]; simpl; [discriminate|].
  intros Hnd. apply List.NoDup_cons_iff in Hnd as [Hk Hnd].
  destruct (String.eqb_spec k k2) as [->|Hne].
  - intros _. now rewrite delete_absent.
  - intros H. simpl. now rewrite (IH Hnd H).
Qed.

Lemma get_delete k k' m :
  get k' (delete k m) = if String.eqb k k' then None else get k' m.
Proof.
  destruct (String.eqb_spec k k') as [->|Hne].
  - apply get_delete_eq.
  - now apply get_delete_ne.
Qed.

Lemma get_set k k' v m :
  get k' (set k v m) = if String.eqb k k' then Some v else get k' m.
Proof.
  destruct (String.eqb_spec k k') as [->|Hne].
  - apply get_set_eq.
  - now apply get_set_ne.
Qed.

End Facts.
End JsMapMore.

(** ** What every reachable state of the server satisfies *)
Module SystemFacts.
Import Server JsMap JsMapFacts JsMapMore System ServerFacts.

Lemma consistent_initial : consistent initial.
Proof.
  split; cbn.
  - constructor.
  - tauto.
  - discriminate.
  - discriminate.
Qed.

(** The entry of [k] is replaced by [c'] and the store by [ss']: the
    state stays consistent when the streams of the other clients are kept
    and the download of [c'], if any, has an open stream of its own. *)
Lemma consistent_update st k c' ss' :
  consistent st ->
  Client.id c' = k ->
  (forall k2 c2 d2 s,
     k2 <> k -> get k2 (clients st) = Some c2 ->
     Client.currentDownload c2 = Some d2 ->
     streams st !! Download.stream d2 = Some s ->
     ss' !! Download.stream d2 = Some s) ->
  (forall d',
     Client.currentDownload c' = Some d' ->
     (exists s, ss' !! Download.stream d' = Some s
                /\ ended s = false /\ path s = Download.filePath d')
     /\ (forall k2 c2 d2,
           k2 <> k -> get k2 (clients st) = Some c2 ->
           Client.currentDownload c2 = Some d2 ->
           Download.stream d2 <> Download.stream d')) ->
  consistent {| clients := set k c' (clients st); streams := ss' |}.
Proof.
  intros [Hnd Hid Hopen Hapart] Hc' Hkeep Hown. split; cbn [clients streams].
  - now apply NoDup_keys_set.
  - intros k2 c2 Hin. apply in_set in Hin as [[-> ->]|Hin]; auto.
  - intros k2 c2 d2. rewrite get_set.
    destruct (String.eqb_spec k k2) as [<-|Hne].
    + intros [= <-] Hd. now apply Hown.
    + intros Hget Hd. destruct (Hopen k2 c2 d2 Hget Hd) as (s & Hs & Ho & Hp).
      exists s. split; [|now split]. eapply Hkeep; eauto.
  - intros k1 k2 c1 c2 d1 d2 Hne. rewrite !get_set.
    destruct (String.eqb_spec k k1) as [<-|H1];
      destruct (String.eqb_spec k k2) as [<-|H2]; try congruence.
    + intros [= <-] Hg2 Hd1 Hd2. destruct (Hown d1 Hd1) as [_ Hother].
      intros E. eapply Hother; eauto.
    + intros Hg1 [= <-] Hd1 Hd2. destruct (Hown d2 Hd2) as [_ Hother].
      eapply Hother; eauto.
    + intros Hg1 Hg2 Hd1 Hd2.
      exact (Hapart k1 k2 c1 c2 d1 d2 Hne Hg1 Hg2 Hd1 Hd2).
Qed.

Lemma consistent_registration st now ws clientId :
  consistent st ->
  consistent (fst (handleClientRegistration st now ws clientId)).
Proof.
  intros H. unfold handleClientRegistration. cbn [fst].
  apply consistent_update; auto; cbn; discriminate.
Qed.

Lemma consistent_chunk DOWNLOAD_DIR st now clientId downloadId chunk chunkIndex :
  consistent st ->
  consistent
    (fst (handleFileChunk DOWNLOAD_DIR st now clientId downloadId chunk
            chunkIndex)).
Proof.
  intros H. destruct (get clientId (clients st)) as [c|] eqn:Hget.
  2: { unfold handleFileChunk. now rewrite Hget. }
  pose proof (filed_by_id st H _ _ (get_In _ _ _ Hget)) as Hid.
  destruct (Client.currentDownload c) as [d|] eqn:Hd.
  - rewrite (handleFileChunk_open _ _ _ _ _ _ _ c d Hget Hd).
    destruct (sink_open st H _ _ _ Hget Hd) as (s & Hs & Ho & Hp).
    apply consistent_update; auto.
    + intros k2 c2 d2 s2 Hne Hg2 Hd2 Hs2.
      rewrite list_lookup_alter_ne; [assumption|].
      intros E. eapply (sinks_apart st H k2 clientId); eauto.
    + cbn. intros d' [= <-]. cbn. split.
      * exists (write (Base64.decode chunk) s). split; [|split].
        -- now rewrite list_lookup_alter_eq, Hs.
        -- unfold write. now rewrite Ho.
        -- unfold write. now rewrite Ho.
      * intros k2 c2 d2 Hne Hg2 Hd2.
        eapply (sinks_apart st H k2 clientId); eauto.
  - rewrite (handleFileChunk_fresh _ _ _ _ _ _ _ c Hget Hd).
    apply consistent_update; auto.
    + intros k2 c2 d2 s2 Hne Hg2 Hd2 Hs2.
      rewrite lookup_app_l; [assumption|]. eapply lookup_lt_Some; eauto.
    + cbn. intros d' [= <-]. cbn. split.
      * eexists. rewrite list_lookup_middle by reflexivity. auto.
      * intros k2 c2 d2 Hne Hg2 Hd2.
        destruct (sink_open st H _ _ _ Hg2 Hd2) as (s2 & Hs2 & _).
        apply lookup_lt_Some in Hs2. lia.
Qed.

Lemma consistent_complete st now clientId downloadId totalChunks fileSize :
  consistent st ->
  consistent
    (fst (handleFileComplete st now clientId downloadId totalChunks fileSize)).
Proof.
  intros H. destruct (get clientId (clients st)) as [c|] eqn:Hget.
  2: { unfold handleFileComplete. now rewrite Hget. }
  pose proof (filed_by_id st H _ _ (get_In _ _ _ Hget)) as Hid.
  destruct (Client.currentDownload c) as [d|] eqn:Hd.
  - rewrite (handleFileComplete_open _ _ _ _ _ _ c d Hget Hd).
    apply consistent_update; auto.
    + intros k2 c2 d2 s2 Hne Hg2 Hd2 Hs2.
      rewrite list_lookup_alter_ne; [assumption|].
      intros E. eapply (sinks_apart st H k2 clientId); eauto.
    + cbn. discriminate.
  - now rewrite (handleFileComplete_idle _ _ _ _ _ _ c Hget Hd).
Qed.

Lemma consistent_close st ws : consistent st -> consistent (fst (onClose st ws)).
Proof.
  intros [Hnd Hid Hopen Hapart]. unfold onClose.
  destruct (findByWs ws (clients st)) as [k|]; cbn [fst]; [|now split].
  split; cbn [clients streams].
  - now apply NoDup_keys_delete.
  - intros k2 c2 Hin. apply in_delete in Hin. auto.
  - intros k2 c2 d2. rewrite get_delete.
    destruct (String.eqb k k2); [discriminate|]. apply Hopen.
  - intros k1 k2 c1 c2 d1 d2 Hne. rewrite !get_delete.
    destruct (String.eqb k k1); [discriminate|].
    destruct (String.eqb k k2); [discriminate|]. now apply Hapart.
Qed.

Lemma step_request st now clientId :
  snd (fst (requestFileDownload st now clientId)) = st.
Proof.
  unfold requestFileDownload. now destruct (get clientId (clients st)).
Qed.

Lemma consistent_step DOWNLOAD_DIR st i :
  consistent st -> consistent (fst (step DOWNLOAD_DIR st i)).
Proof.
  intros H. destruct i as [now ws data|ws|now clientId]; cbn [step].
  - destruct data; cbn [onMessage].
    + now apply consistent_registration.
    + now apply consistent_chunk.
    + now apply consistent_complete.
    + exact H.
    + exact H.
  - now apply consistent_close.
  - pose proof (step_request st now clientId) as E.
    destruct (requestFileDownload st now clientId) as [[r st'] e].
    cbn in *. now subst.
Qed.

Lemma run_cons DOWNLOAD_DIR st i rest :
  fst (run DOWNLOAD_DIR st (i :: rest))
  = fst (run DOWNLOAD_DIR (fst (step DOWNLOAD_DIR st i)) rest).
Proof.
  cbn [run]. destruct (step DOWNLOAD_DIR st i) as [st1 e1]. cbn [fst].
  now destruct (run DOWNLOAD_DIR st1 rest).
Qed.

Lemma consistent_run DOWNLOAD_DIR inputs : forall st,
  consistent st -> consistent (fst (run DOWNLOAD_DIR st inputs)).
Proof.
  induction inputs as [|i rest IH]; intros st H; [exact H|].
  rewrite run_cons. apply IH. now apply consistent_step.
Qed.

End SystemFacts.

(** ** The sinks over the life of the server *)
Module SinkFacts.
Import Server JsMap JsMapFacts JsMapMore System ServerFacts SystemFacts.

(** X1. Whatever the inputs, the server stays consistent: every client
    id is registered once and under its own id, every download in
    progress has a stream of its own in the store, open and at the path
    the record names, so that a chunk is never written to an ended stream
    nor to the stream of another client. *)
Theorem reachable_consistent (DOWNLOAD_DIR : string) (inputs : list Input) :
  consistent (fst (run DOWNLOAD_DIR initial inputs)).
Proof. apply consistent_run, consistent_initial. Qed.

Lemma extends_refl s : extends s s.
Proof. repeat split. exists []. now rewrite app_nil_r. Qed.

Lemma extends_trans s1 s2 s3 : extends s1 s2 -> extends s2 s3 -> extends s1 s3.
Proof.
  intros (P1 & [m1 W1] & E1) (P2 & [m2 W2] & E2). repeat split.
  - congruence.
  - exists (m1 ++ m2). now rewrite W2, W1, app_assoc.
  - intros H. pose proof (E1 H) as E. subst s2. now apply E2.
Qed.

Lemma extends_write buffer s : extends s (write buffer s).
Proof.
  unfold write. destruct (ended s) eqn:E; [apply extends_refl|].
  repeat split; cbn; eauto. congruence.
Qed.

Lemma extends_endStream s : extends s (endStream s).
Proof.
  repeat split; cbn.
  - exists []. now rewrite app_nil_r.
  - destruct s as [p w e]. cbn. now intros ->.
Qed.

Lemma extends_alter (f : WriteStream -> WriteStream) (h0 : nat)
    (ss : list WriteStream) (h : nat) (s : WriteStream) :
  (forall x, extends x (f x)) ->
  ss !! h = Some s ->
  exists s', alter f h0 ss !! h = Some s' /\ extends s s'.
Proof.
  intros Hf Hs. destruct (Nat.eq_dec h0 h) as [->|Hne].
  - exists (f s). now rewrite list_lookup_alter_eq, Hs.
  - exists s. rewrite list_lookup_alter_ne by assumption.
    split; [assumption | apply extends_refl].
Qed.

Lemma step_extends DOWNLOAD_DIR st i h s :
  streams st !! h = Some s ->
  exists s', streams (fst (step DOWNLOAD_DIR st i)) !! h = Some s'
             /\ extends s s'.
Proof.
  intros Hs.
  assert (Hsame : exists s', streams st !! h = Some s' /\ extends s s')
    by (exists s; split; [assumption | apply extends_refl]).
  destruct i as [now ws data|ws|now clientId]; cbn [step].
  - destruct data as [k|k did chunk idx|k did n size|k did e|t]; cbn [onMessage];
      try exact Hsame.
    + destruct (get k (clients st)) as [c|] eqn:Hget.
      2: { unfold handleFileChunk. now rewrite Hget. }
      destruct (Client.currentDownload c) as [d|] eqn:Hd.
      * rewrite (handleFileChunk_open _ _ _ _ _ _ _ c d Hget Hd). cbn [streams].
        apply extends_alter; [apply extends_write | assumption].
      * rewrite (handleFileChunk_fresh _ _ _ _ _ _ _ c Hget Hd). cbn [streams].
        exists s. split; [|apply extends_refl].
        rewrite lookup_app_l; [assumption|]. eapply lookup_lt_Some; eauto.
    + destruct (get k (clients st)) as [c|] eqn:Hget.
      2: { unfold handleFileComplete. now rewrite Hget. }
      destruct (Client.currentDownload c) as [d|] eqn:Hd.
      * rewrite (handleFileComplete_open _ _ _ _ _ _ c d Hget Hd). cbn [streams].
        apply extends_alter; [apply extends_endStream | assumption].
      * now rewrite (handleFileComplete_idle _ _ _ _ _ _ c Hget Hd).
  - unfold onClose. now destruct (findByWs ws (clients st)).
  - pose proof (step_request st now clientId) as E.
    destruct (requestFileDownload st now clientId) as [[r st'] e].
    cbn in *. now subst.
Qed.

(** X2. The store of sinks only grows: whatever inputs follow, a sink
    that exists stays under its handle with its path, the bytes written
    to it stay as a prefix of what it holds later, and once it is ended
    it does not change any more. *)
Theorem sinks_only_grow (DOWNLOAD_DIR : string) (inputs : list Input)
    (st : State) (h : nat) (s : WriteStream) :
  streams st !! h = Some s ->
  exists s',
    streams (fst (run DOWNLOAD_DIR st inputs)) !! h = Some s'
    /\ extends s s'.
Proof.
  revert st s. induction inputs as [|i rest IH]; intros st s Hs.
  - exists s. split; [assumption | apply extends_refl].
  - rewrite run_cons.
    destruct (step_extends DOWNLOAD_DIR st i h s Hs) as (s1 & Hs1 & E1).
    destruct (IH _ _ Hs1) as (s2 & Hs2 & E2).
    exists s2. split; [assumption | eapply extends_trans; eauto].
Qed.

Lemma sinks_only_grow_witness :
  exists s',
    streams
      (fst (run "downloads" Scenario.busyServer
              [Message 1600 7
                 (MsgFileChunk "restaurant-1" "download_1500" "bGw=" 1%nat);
               Close 7]))
      !! 0%nat = Some s'
    /\ extends (Scenario.sinkOf1500 [x68; x65] false) s'.
Proof.
  apply (sinks_only_grow "downloads" _ Scenario.busyServer 0).
  reflexivity.
Defined.

Lemma storedBytes_alter_write buffer :
  forall (ss : list WriteStream) (h : nat) (s : WriteStream),
  ss !! h = Some s -> ended s = false ->
  list_sum (map (fun s => List.length (written s)) (alter (write buffer) h ss))
  = (list_sum (map (fun s => List.length (written s)) ss)
     + List.length buffer)%nat.
Proof.
  unfold list_sum.
  induction ss as [|x ss IH]; intros [|h] s Hs Ho; try discriminate.
  - injection Hs as ->.
    change (alter (write buffer) 0%nat (s :: ss)) with (write buffer s :: ss).
    cbn [map fold_right]. unfold write. rewrite Ho. cbn [written].
    rewrite length_app. lia.
  - change (alter (write buffer) (S h) (x :: ss))
      with (x :: alter (write buffer) h ss).
    cbn [map fold_right]. rewrite (IH h s Hs Ho). lia.
Qed.

Lemma list_sum_snoc l x : list_sum (l ++ [x]) = (list_sum l + x)%nat.
Proof.
  unfold list_sum.
  induction l as [|y l IH]; cbn [app fold_right]; [lia | rewrite IH; lia].
Qed.

(** X3. No chunk is lost, misplaced or written twice: in any state the
    server can reach, a chunk envelope that names a registered client
    appends exactly its decoded bytes (for an encoded buffer, the buffer)
    to the sink of that client's download, which is the open sink of the
    download in progress or else a new one, leaves every other sink as it
    was, and so adds the length of these bytes to the total held by the
    sinks; one that names no registered client changes nothing. *)
Theorem chunk_is_stored (DOWNLOAD_DIR : string) (inputs : list Input)
    (now : N) (ws : nat) (clientId downloadId chunk : string)
    (chunkIndex : nat) :
  let st := fst (run DOWNLOAD_DIR initial inputs) in
  let st' :=
    fst (onMessage DOWNLOAD_DIR st now ws
           (MsgFileChunk clientId downloadId chunk chunkIndex)) in
  match lookup st clientId with
  | None => st' = st
  | Some client =>
      let h :=
        match Client.currentDownload client with
        | Some d => Download.stream d
        | None => List.length (streams st)
        end in
      let before :=
        match streams st !! h with
        | Some s => written s
        | None => []
        end in
      (exists client' d',
         lookup st' clientId = Some client'
         /\ Client.currentDownload client' = Some d'
         /\ Download.stream d' = h)
      /\ (exists s',
            streams st' !! h = Some s'
            /\ written s' = before ++ Base64.decode chunk
            /\ ended s' = false)
      /\ (forall bytes,
            chunk = Base64.encode bytes ->
            exists s',
              streams st' !! h = Some s' /\ written s' = before ++ bytes)
      /\ (forall h', h' <> h -> streams st' !! h' = streams st !! h')
      /\ storedBytes st'
         = (storedBytes st + List.length (Base64.decode chunk))%nat
  end.
Proof.
  intros st. pose proof (consistent_run DOWNLOAD_DIR inputs _ consistent_initial) as H.
  fold st in H. cbn zeta. cbn [onMessage]. unfold lookup, storedBytes.
  destruct (get clientId (clients st)) as [c|] eqn:Hget.
  2: { unfold handleFileChunk. now rewrite Hget. }
  destruct (Client.currentDownload c) as [d|] eqn:Hd.
  - rewrite (handleFileChunk_open _ _ _ _ _ _ _ c d Hget Hd).
    cbn [clients streams].
    destruct (sink_open st H _ _ _ Hget Hd) as (s & Hs & Ho & _).
    rewrite Hs, list_lookup_alter_eq, Hs. cbn [fmap option_fmap option_map].
    assert (Hw : write (Base64.decode chunk) s
                 = {| path := path s;
                      written := written s ++ Base64.decode chunk;
                      ended := false |})
      by (unfold write; now rewrite Ho).
    rewrite Hw. split; [|split; [|split; [|split]]].
    + do 2 eexists. rewrite get_set_eq. repeat split.
    + eexists. repeat split.
    + intros bytes ->. rewrite Base64Facts.decode_encode. eexists. split; reflexivity.
    + intros h' Hh'. apply list_lookup_alter_ne. congruence.
    + now apply storedBytes_alter_write with (s := s).
  - rewrite (handleFileChunk_fresh _ _ _ _ _ _ _ c Hget Hd).
    cbn [clients streams].
    rewrite (lookup_ge_None_2 (streams st) (List.length (streams st))) by lia.
    rewrite list_lookup_middle by reflexivity.
    split; [|split; [|split; [|split]]].
    + do 2 eexists. rewrite get_set_eq. repeat split.
    + eexists. repeat split.
    + intros bytes ->. rewrite Base64Facts.decode_encode. eexists. split; reflexivity.
    + intros h' Hh'.
      destruct (lt_dec h' (List.length (streams st))) as [Hlt|Hge].
      * now apply lookup_app_l.
      * rewrite !lookup_ge_None_2; [reflexivity | lia |].
        rewrite length_app. cbn. lia.
    + rewrite map_app. cbn [map]. rewrite list_sum_snoc. reflexivity.
Qed.

(** An envelope that does not name [k] leaves the entry of [k] and the
    sink of its download as they were. *)
Lemma message_frame DOWNLOAD_DIR st now ws data k :
  consistent st ->
  names k data = false ->
  let st' := fst (onMessage DOWNLOAD_DIR st now ws data) in
  get k (clients st') = get k (clients st)
  /\ forall c d,
       get k (clients st) = Some c ->
       Client.currentDownload c = Some d ->
       streams st' !! Download.stream d = streams st !! Download.stream d.
Proof.
  intros H Hn. cbn zeta.
  destruct data as [k0|k0 did chunk idx|k0 did n size|k0 did e|t];
    cbn [onMessage names] in *; try (split; reflexivity);
    apply String.eqb_neq in Hn.
  - unfold handleClientRegistration. cbn [fst clients streams].
    rewrite get_set_ne by assumption. split; reflexivity.
  - destruct (get k0 (clients st)) as [c0|] eqn:Hget.
    2: { unfold handleFileChunk. rewrite Hget. split; reflexivity. }
    destruct (Client.currentDownload c0) as [d0|] eqn:Hd.
    + rewrite (handleFileChunk_open _ _ _ _ _ _ _ c0 d0 Hget Hd).
      cbn [clients streams]. rewrite get_set_ne by assumption.
      split; [reflexivity|]. intros c d Hc Hdd.
      apply list_lookup_alter_ne.
      exact (sinks_apart st H k0 k c0 c d0 d Hn Hget Hc Hd Hdd).
    + rewrite (handleFileChunk_fresh _ _ _ _ _ _ _ c0 Hget Hd).
      cbn [clients streams]. rewrite get_set_ne by assumption.
      split; [reflexivity|]. intros c d Hc Hdd.
      destruct (sink_open st H _ _ _ Hc Hdd) as (s & Hs & _).
      apply lookup_app_l. eapply lookup_lt_Some; eauto.
  - destruct (get k0 (clients st)) as [c0|] eqn:Hget.
    2: { unfold handleFileComplete. rewrite Hget. split; reflexivity. }
    destruct (Client.currentDownload c0) as [d0|] eqn:Hd.
    + rewrite (handleFileComplete_open _ _ _ _ _ _ c0 d0 Hget Hd).
      cbn [clients streams]. rewrite get_set_ne by assumption.
      split; [reflexivity|]. intros c d Hc Hdd.
      apply list_lookup_alter_ne.
      exact (sinks_apart st H k0 k c0 c d0 d Hn Hget Hc Hd Hdd).
    + rewrite (handleFileComplete_idle _ _ _ _ _ _ c0 Hget Hd).
      split; reflexivity.
Qed.

(** X4. Clients do not disturb each other: in any state the server can
    reach, an envelope that does not name client [k] leaves the entry of
    [k] as it was, and the sink of the download of [k] with it. *)
Theorem other_clients_untouched (DOWNLOAD_DIR : string)
    (inputs : list Input) (now : N) (ws : nat) (data : ClientMsg)
    (k : string) :
  names k data = false ->
  let st := fst (run DOWNLOAD_DIR initial inputs) in
  let st' := fst (onMessage DOWNLOAD_DIR st now ws data) in
  lookup st' k = lookup st k
  /\ forall c d,
       lookup st k = Some c ->
       Client.currentDownload c = Some d ->
       streams st' !! Download.stream d = streams st !! Download.stream d.
Proof.
  intros Hn st.
  exact (message_frame DOWNLOAD_DIR st now ws data k
           (consistent_run DOWNLOAD_DIR inputs _ consistent_initial) Hn).
Qed.

Lemma other_clients_untouched_witness :
  lookup
    (fst (onMessage "downloads" Scenario.busyServer 1600 8
            (MsgRegister "restaurant-2")))
    "restaurant-1"
  = lookup Scenario.busyServer "restaurant-1".
Proof.
  refine (proj1 (other_clients_untouched "downloads"
    [Message 1000 7 (MsgRegister "restaurant-1");
     Message 1501 7
       (MsgFileChunk "restaurant-1" "download_1500" "aGU=" 0%nat)]
    1600 8 (MsgRegister "restaurant-2") "restaurant-1" _)).
  reflexivity.
Defined.

Lemma unreferenced_step DOWNLOAD_DIR st i h :
  unreferenced h st ->
  (h < List.length (streams st))%nat ->
  let st' := fst (step DOWNLOAD_DIR st i) in
  unreferenced h st'
  /\ (h < List.length (streams st'))%nat
  /\ streams st' !! h = streams st !! h.
Proof.
  intros Hu Hh.
  assert (Hsame : unreferenced h st
                  /\ (h < List.length (streams st))%nat
                  /\ streams st !! h = streams st !! h) by auto.
  destruct i as [now ws data|ws|now clientId]; cbn [step].
  - destruct data as [k|k did chunk idx|k did n size|k did e|t]; cbn [onMessage];
      try exact Hsame.
    + unfold handleClientRegistration. cbn zeta. unfold unreferenced.
      cbn [fst clients streams].
      split; [|auto]. intros k2 c2 d2. rewrite get_set.
      destruct (String.eqb k k2); [intros [= <-]; discriminate | apply Hu].
    + destruct (get k (clients st)) as [c|] eqn:Hget.
      2: { unfold handleFileChunk. now rewrite Hget. }
      destruct (Client.currentDownload c) as [d|] eqn:Hd.
      * rewrite (handleFileChunk_open _ _ _ _ _ _ _ c d Hget Hd). cbn zeta.
        unfold unreferenced.
        cbn [clients streams]. pose proof (Hu k c d Hget Hd) as Hne.
        split; [|split].
        -- intros k2 c2 d2. rewrite get_set.
           destruct (String.eqb k k2); [|apply Hu].
           intros [= <-] [= <-]. exact Hne.
        -- now rewrite length_alter.
        -- now apply list_lookup_alter_ne.
      * rewrite (handleFileChunk_fresh _ _ _ _ _ _ _ c Hget Hd). cbn zeta.
        unfold unreferenced.
        cbn [clients streams]. split; [|split].
        -- intros k2 c2 d2. rewrite get_set.
           destruct (String.eqb k k2); [|apply Hu].
           intros [= <-] [= <-]. cbn. lia.
        -- rewrite length_app. cbn. lia.
        -- now apply lookup_app_l.
    + destruct (get k (clients st)) as [c|] eqn:Hget.
      2: { unfold handleFileComplete. now rewrite Hget. }
      destruct (Client.currentDownload c) as [d|] eqn:Hd.
      * rewrite (handleFileComplete_open _ _ _ _ _ _ c d Hget Hd). cbn zeta.
        unfold unreferenced.
        cbn [clients streams]. pose proof (Hu k c d Hget Hd) as Hne.
        split; [|split].
        -- intros k2 c2 d2. rewrite get_set.
           destruct (String.eqb k k2); [|apply Hu].
           intros [= <-]. discriminate.
        -- now rewrite length_alter.
        -- now apply list_lookup_alter_ne.
      * now rewrite (handleFileComplete_idle _ _ _ _ _ _ c Hget Hd).
  - unfold onClose. destruct (findByWs ws (clients st)) as [k|]; [|exact Hsame].
    cbn zeta. unfold unreferenced. cbn [fst clients streams]. split; [|auto].
    intros k2 c2 d2. rewrite get_delete.
    destruct (String.eqb k k2); [discriminate | apply Hu].
  - pose proof (step_request st now clientId) as E.
    destruct (requestFileDownload st now clientId) as [[r st'] e].
    cbn in *. now subst.
Qed.

Lemma unreferenced_run DOWNLOAD_DIR inputs h : forall st,
  unreferenced h st ->
  (h < List.length (streams st))%nat ->
  streams (fst (run DOWNLOAD_DIR st inputs)) !! h = streams st !! h.
Proof.
  induction inputs as [|i rest IH]; intros st Hu Hh; [reflexivity|].
  rewrite run_cons.
  destruct (unreferenced_step DOWNLOAD_DIR st i h Hu Hh) as (Hu' & Hh' & E).
  rewrite IH by assumption. exact E.
Qed.

(** X5. The sink of a download cut off by the close of its connection is
    left open for good: in a state the server can reach, once the entry
    of the client is removed by the close, no later input writes to that
    sink or ends it. *)
Theorem sink_abandoned_on_close (DOWNLOAD_DIR : string)
    (before after : list Input) (ws : nat) (k : string) (c : Client.t)
    (d : Download.t) :
  let st := fst (run DOWNLOAD_DIR initial before) in
  findByWs ws (clients st) = Some k ->
  lookup st k = Some c ->
  Client.currentDownload c = Some d ->
  exists s,
    streams st !! Download.stream d = Some s
    /\ ended s = false
    /\ lookup (fst (onClose st ws)) k = None
    /\ streams (fst (run DOWNLOAD_DIR (fst (onClose st ws)) after))
         !! Download.stream d = Some s.
Proof.
  intros st Hf Hc Hd.
  pose proof (consistent_run DOWNLOAD_DIR before _ consistent_initial) as H.
  fold st in H. unfold lookup in *.
  destruct (sink_open st H _ _ _ Hc Hd) as (s & Hs & Ho & _).
  exists s. split; [assumption|]. split; [assumption|].
  unfold onClose. rewrite Hf. cbn [fst clients]. split; [apply get_delete_eq|].
  rewrite unreferenced_run.
  - exact Hs.
  - intros k2 c2 d2. cbn [clients]. rewrite get_delete.
    destruct (String.eqb_spec k k2) as [->|Hne]; [discriminate|].
    intros Hc2 Hd2. apply not_eq_sym.
    exact (sinks_apart st H k k2 c c2 d d2 Hne Hc Hc2 Hd Hd2).
  - cbn [streams]. eapply lookup_lt_Some; eauto.
Qed.

Lemma sink_abandoned_on_close_witness :
  exists s,
    streams Scenario.busyServer !! 0%nat = Some s
    /\ ended s = false
    /\ lookup (fst (onClose Scenario.busyServer 7)) "restaurant-1" = None
    /\ streams
         (fst (run "downloads" (fst (onClose Scenario.busyServer 7))
                 [Message 1700 7
                    (MsgFileComplete "restaurant-1" "download_1500" 1%nat 2%nat)]))
         !! 0%nat = Some s.
Proof.
  apply (sink_abandoned_on_close "downloads"
    [Message 1000 7 (MsgRegister "restaurant-1");
     Message 1501 7
       (MsgFileChunk "restaurant-1" "download_1500" "aGU=" 0%nat)]
    [Message 1700 7
       (MsgFileComplete "restaurant-1" "download_1500" 1%nat 2%nat)]
    7 "restaurant-1" Scenario.busyClient Scenario.busyDownload).
  - reflexivity.
  - reflexivity.
  - reflexivity.
Defined.

(** X6. A registration under an id that has a download in progress
    drops the download record without ending its sink: the entry is new,
    with the registering connection and no download, and whatever inputs
    follow, the old sink is neither written to nor ended. *)
Theorem sink_abandoned_on_registration (DOWNLOAD_DIR : string)
    (before after : list Input) (now : N) (ws : nat) (k : string)
    (c : Client.t) (d : Download.t) :
  let st := fst (run DOWNLOAD_DIR initial before) in
  lookup st k = Some c ->
  Client.currentDownload c = Some d ->
  let st' := fst (handleClientRegistration st now ws k) in
  exists s,
    streams st !! Download.stream d = Some s
    /\ ended s = false
    /\ lookup st' k
       = Some {| Client.ws := ws; Client.id := k; Client.connectedAt := now;
                 Client.currentDownload := None |}
    /\ streams (fst (run DOWNLOAD_DIR st' after)) !! Download.stream d
       = Some s.
Proof.
  intros st Hc Hd st'.
  pose proof (consistent_run DOWNLOAD_DIR before _ consistent_initial) as H.
  fold st in H. unfold lookup in *.
  destruct (sink_open st H _ _ _ Hc Hd) as (s & Hs & Ho & _).
  exists s. split; [assumption|]. split; [assumption|].
  subst st'. unfold handleClientRegistration. cbn [fst clients].
  split; [apply get_set_eq|].
  rewrite unreferenced_run.
  - exact Hs.
  - intros k2 c2 d2. cbn [clients]. rewrite get_set.
    destruct (String.eqb_spec k k2) as [->|Hne]; [intros [= <-]; discriminate|].
    intros Hc2 Hd2. apply not_eq_sym.
    exact (sinks_apart st H k k2 c c2 d d2 Hne Hc Hc2 Hd Hd2).
  - cbn [streams]. eapply lookup_lt_Some; eauto.
Qed.

Lemma sink_abandoned_on_registration_witness :
  exists s,
    streams Scenario.busyServer !! 0%nat = Some s
    /\ ended s = false
    /\ lookup (fst (handleClientRegistration Scenario.busyServer 1600 8
                      "restaurant-1")) "restaurant-1"
       = Some {| Client.ws := 8%nat; Client.id := "restaurant-1";
                 Client.connectedAt := 1600;
                 Client.currentDownload := None |}
    /\ streams
         (fst (run "downloads"
                 (fst (handleClientRegistration Scenario.busyServer 1600 8
                         "restaurant-1"))
                 [Message 1700 8
                    (MsgFileChunk "restaurant-1" "download_1500" "bGw=" 1%nat)]))
         !! 0%nat = Some s.
Proof.
  apply (sink_abandoned_on_registration "downloads"
    [Message 1000 7 (MsgRegister "restaurant-1");
     Message 1501 7
       (MsgFileChunk "restaurant-1" "download_1500" "aGU=" 0%nat)]
    [Message 1700 8
       (MsgFileChunk "restaurant-1" "download_1500" "bGw=" 1%nat)]
    1600 8 "restaurant-1" Scenario.busyClient Scenario.busyDownload).
  - reflexivity.
  - reflexivity.
Defined.

End SinkFacts.

(** ** The REST shell and the command line *)
Module ApiFacts.
Import Server JsMap JsMapFacts JsMapMore System ServerFacts SystemFacts Api.

Lemma findByWs_In ws m k :
  findByWs ws m = Some k -> exists c, In (k, c) m /\ Client.ws c = ws.
Proof.
  induction m as [|[k' c'] m IH]; simpl; [discriminate|].
  destruct (Nat.eqb_spec (Client.ws c') ws) as [E|E].
  - intros [= <-]. exists c'. split; [now left | assumption].
  - intros H. destruct (IH H) as (c & Hin & Hc). exists c. split; [now right | assumption].
Qed.

(** X7. The count that [/health] reports: a registration adds one for an
    id that is not registered and nothing for one that is; the close of a
    connection takes one away when the connection holds an entry and
    nothing when it holds none. *)
Theorem connected_count (DOWNLOAD_DIR : string) (inputs : list Input)
    (now : N) (ws : nat) (clientId : string) :
  let st := fst (run DOWNLOAD_DIR initial inputs) in
  connectedClients (fst (handleClientRegistration st now ws clientId))
  = (if has clientId (clients st)
     then connectedClients st else S (connectedClients st))
  /\ connectedClients st
     = (connectedClients (fst (onClose st ws))
        + match findByWs ws (clients st) with Some _ => 1 | None => 0 end)%nat.
Proof.
  intros st. pose proof (consistent_run DOWNLOAD_DIR inputs _ consistent_initial) as H.
  fold st in H. unfold connectedClients. split.
  - unfold handleClientRegistration. cbn [fst clients]. apply length_set.
  - unfold onClose. destruct (findByWs ws (clients st)) as [k|] eqn:Hf.
    + cbn [fst clients]. destruct (findByWs_In _ _ _ Hf) as (c & Hin & _).
      pose proof (In_get _ _ _ (keys_once st H) Hin) as Hget.
      rewrite <- (length_delete k c (clients st) (keys_once st H) Hget). lia.
    + cbn [fst]. lia.
Qed.

(** X8. [POST /api/download] answers 400 exactly when the body has no
    [clientId] or an empty one, 404 with the text of the rejection
    exactly when the id is not registered, and 200 with the handle of
    [requestFileDownload] exactly when it is; only in the last case is a
    download request sent, and the server state is never changed. *)
Theorem postDownload_answers (st : State) (now : N)
    (clientId : option string) :
  let '(response, st', effects) := postDownload st now clientId in
  st' = st
  /\ match clientId with
     | None =>
         response = {| status := 400; body := BodyError "clientId is required" |}
         /\ effects = []
     | Some k =>
         if String.eqb k "" then
           response
           = {| status := 400; body := BodyError "clientId is required" |}
           /\ effects = []
         else
           match lookup st k with
           | None =>
               response
               = {| status := 404;
                    body := BodyFailure
                              ("Client " +:+ k +:+ " is not connected") |}
               /\ effects = []
           | Some client =>
               response
               = {| status := 200;
                    body := BodySuccess
                              ("Download initiated from client " +:+ k)
                              {| h_clientId := k;
                                 h_downloadId := downloadIdAt now;
                                 h_status := "initiated" |} |}
               /\ sends effects
                  = [(Client.ws client, MsgDownloadRequest (downloadIdAt now))]
           end
     end.
Proof.
  destruct clientId as [[|a k]|]; cbn [postDownload].
  - cbn. auto.
  - change (String.eqb (String a k) "") with false. cbv iota.
    unfold requestFileDownload, lookup.
    destruct (get (String a k) (clients st)) as [client|]; cbn; auto.
  - cbn. auto.
Qed.

Lemma has_keys {V} k (m : list (string * V)) :
  has k m = true <-> In k (map fst m).
Proof.
  unfold has. destruct (get k m) as [v|] eqn:E.
  - split; [|reflexivity]. intros _. apply get_In in E.
    now apply (in_map fst) in E.
  - split; [discriminate|]. intros Hin. now apply get_None_keys in E.
Qed.

(** X9. In any state the server can reach, [GET /api/clients] lists the
    registered ids, each once and in the order of the map, and its count
    is the count of [/health]. *)
Theorem clients_listing (DOWNLOAD_DIR : string) (inputs : list Input) :
  let st := fst (run DOWNLOAD_DIR initial inputs) in
  let answer := getClients st in
  count answer = connectedClients st
  /\ map info_id (listed answer) = map fst (clients st)
  /\ List.NoDup (map info_id (listed answer))
  /\ forall k, In k (map info_id (listed answer)) <-> has k (clients st) = true.
Proof.
  intros st answer.
  pose proof (consistent_run DOWNLOAD_DIR inputs _ consistent_initial) as H.
  fold st in H.
  assert (E : map info_id (listed answer) = map fst (clients st)).
  { subst answer. unfold getClients. cbn [listed]. rewrite map_map.
    apply map_ext_in. intros [k c] Hin. cbn.
    exact (filed_by_id st H k c Hin). }
  split; [apply length_map|]. split; [exact E|]. rewrite E.
  split; [apply (keys_once st H)|].
  intros k. symmetry. apply has_keys.
Qed.

(** X10. A client that registers under an id not yet in the registry is
    listed last by [GET /api/clients], with the time of its registration
    and no active download; the entries before it are as they were. *)
Theorem new_client_listed_last (st : State) (now : N) (ws : nat)
    (clientId : string) :
  lookup st clientId = None ->
  let st' := fst (handleClientRegistration st now ws clientId) in
  listed (getClients st')
  = listed (getClients st)
      ++ [{| info_id := clientId; info_connectedAt := now;
             hasActiveDownload := false |}]
  /\ count (getClients st') = S (count (getClients st)).
Proof.
  intros Hnone st'. subst st'. unfold lookup in Hnone.
  unfold getClients, handleClientRegistration. cbn [fst clients listed count].
  rewrite set_fresh by assumption. rewrite map_app. cbn [map snd].
  split; [reflexivity|]. rewrite length_app. cbn. lia.
Qed.

Lemma new_client_listed_last_witness :
  listed (getClients
            (fst (handleClientRegistration Scenario.demoServer 1200 8
                    "restaurant-2")))
  = [{| info_id := "restaurant-1"; info_connectedAt := 1000;
        hasActiveDownload := false |};
     {| info_id := "restaurant-2"; info_connectedAt := 1200;
        hasActiveDownload := false |}].
Proof.
  refine (proj1 (new_client_listed_last Scenario.demoServer 1200 8
                   "restaurant-2" _)).
  reflexivity.
Defined.

(** X11. The flag [hasActiveDownload] of a registered client is set by
    any chunk that names it and cleared by a completion that names it and
    by a new registration under its id. *)
Theorem active_download_flag (DOWNLOAD_DIR : string) (st : State)
    (now : N) (ws : nat) (clientId downloadId chunk : string)
    (chunkIndex totalChunks fileSize : nat) (client : Client.t) :
  lookup st clientId = Some client ->
  let flag st' :=
    option_map (fun c => hasActiveDownload (infoOf c)) (lookup st' clientId) in
  flag (fst (handleFileChunk DOWNLOAD_DIR st now clientId downloadId chunk
               chunkIndex)) = Some true
  /\ flag (fst (handleFileComplete st now clientId downloadId totalChunks
                  fileSize)) = Some false
  /\ flag (fst (handleClientRegistration st now ws clientId)) = Some false.
Proof.
  intros Hget flag. subst flag. unfold lookup in *. cbn beta.
  split; [|split].
  - destruct (Client.currentDownload client) as [d|] eqn:Hd.
    + rewrite (handleFileChunk_open _ _ _ _ _ _ _ client d Hget Hd).
      cbn [clients]. now rewrite get_set_eq.
    + rewrite (handleFileChunk_fresh _ _ _ _ _ _ _ client Hget Hd).
      cbn [clients]. now rewrite get_set_eq.
  - destruct (Client.currentDownload client) as [d|] eqn:Hd.
    + rewrite (handleFileComplete_open _ _ _ _ _ _ client d Hget Hd).
      cbn [clients]. now rewrite get_set_eq.
    + rewrite (handleFileComplete_idle _ _ _ _ _ _ client Hget Hd).
      rewrite Hget. cbn. unfold infoOf. now rewrite Hd.
  - unfold handleClientRegistration. cbn [fst clients]. now rewrite get_set_eq.
Qed.

Lemma active_download_flag_witness :
  option_map (fun c => hasActiveDownload (infoOf c))
    (lookup
       (fst (handleFileChunk "downloads" Scenario.demoServer 1501
               "restaurant-1" "download_1500" "aGU=" 0%nat))
       "restaurant-1")
  = Some true.
Proof.
  refine (proj1 (active_download_flag "downloads" Scenario.demoServer 1501 7
                   "restaurant-1" "download_1500" "aGU=" 0%nat 1%nat 2%nat
                   {| Client.ws := 7%nat; Client.id := "restaurant-1";
                      Client.connectedAt := 1000;
                      Client.currentDownload := None |} _)).
  reflexivity.
Defined.

Lemma poll_cleared clientId ticks : Cli.poll clientId false ticks = (None, []).
Proof.
  induction ticks as [|[st now] ticks IH]; [reflexivity|].
  cbn [Cli.poll Cli.checkTick]. now rewrite IH.
Qed.

(** X12. The command-line mode asks for the download once: at the first
    tick of its interval that finds the client registered it sends one
    download request, with the clock of that tick, over the connection
    the registry holds for the client, and no tick before or after sends
    anything; the exit with code 1 is never taken. *)
Theorem cli_requests_once (clientId : string) (ticks : list (State * N)) :
  let '(code, effects) := Cli.poll clientId true ticks in
  code = None
  /\ match List.find (fun t => has clientId (clients (fst t))) ticks with
     | Some (st, now) =>
         exists client,
           lookup st clientId = Some client
           /\ sends effects
              = [(Client.ws client, MsgDownloadRequest (downloadIdAt now))]
     | None => effects = []
     end.
Proof.
  induction ticks as [|[st now] ticks IH]; [cbn; auto|].
  cbn [Cli.poll Cli.checkTick List.find fst]. unfold has, lookup in *.
  unfold requestFileDownload.
  destruct (get clientId (clients st)) as [client|] eqn:Hget.
  - rewrite poll_cleared. split; [reflexivity|].
    exists client. split; [exact Hget | reflexivity].
  - destruct (Cli.poll clientId true ticks) as [code effects].
    cbn [app]. exact IH.
Qed.

End ApiFacts.

(** ** The sender off the good path *)
Module SenderEdge.
Import Sender Trace SenderFacts.
Local Open Scope nat_scope.




(** X14. A read error ends the transfer with one error envelope: the
    chunks read before it are sent, then the error with the message of
    the stream, and nothing after it, whatever the stream would deliver
    next; no completion is sent. *)
Theorem read_error_ends_transfer (cfg : Config) (downloadId : string)
    (fileSize : nat) (flushed : nat -> bool) (t : Transfer)
    (cs : list (list byte)) (message : string) (rest : list StreamEvent) :
  (forall i, flushed i = true) ->
  let msgs :=
    pump cfg downloadId fileSize flushed t
      (map Data cs ++ ReadError message :: rest) in
  msgs = chunkMsgs (CLIENT_ID cfg) downloadId (chunkIndex t) cs
           ++ [MsgError (CLIENT_ID cfg) downloadId message]
  /\ completions msgs = [].
Proof.
  intros Hf msgs.
  assert (E : msgs = chunkMsgs (CLIENT_ID cfg) downloadId (chunkIndex t) cs
                       ++ [MsgError (CLIENT_ID cfg) downloadId message]).
  { subst msgs. revert t. induction cs as [|c cs IH]; intros t; [reflexivity|].
    cbn [map app pump chunkMsgs]. rewrite Hf, IH. reflexivity. }
  split; [exact E|]. rewrite E, completions_app, completions_chunkMsgs.
  reflexivity.
Qed.

Lemma read_error_ends_transfer_witness :
  pump Scenario.demoConfig "download_1500" 5 (fun _ => true)
    {| chunkIndex := 0; totalBytesSent := 0 |}
    [Data [x68; x65]; ReadError "EIO"; Data [x6c; x6c]; End]
  = [MsgFileChunk "restaurant-1" "download_1500" "aGU=" 0;
     MsgError "restaurant-1" "download_1500" "EIO"].
Proof.
  exact (proj1 (read_error_ends_transfer Scenario.demoConfig "download_1500" 5
                  (fun _ => true) {| chunkIndex := 0; totalBytesSent := 0 |}
                  [[x68; x65]] "EIO" [Data [x6c; x6c]; End]
                  (fun _ => eq_refl))).
Defined.


Lemma readChunks_full n : 0 < n ->
  forall fuel (content : list byte) (i : nat) (chunk : list byte),
    readChunks fuel n content !! i = Some chunk ->
    S i < List.length (readChunks fuel n content) ->
    List.length chunk = n.
Proof.
  intros Hn. induction fuel as [|fuel IH]; intros content i chunk Hi Hlast;
    [discriminate|].
  destruct content as [|b content]; [discriminate|].
  cbn [readChunks] in *. destruct i as [|i].
  - injection Hi as <-. rewrite length_take.
    cbn [List.length] in Hlast.
    destruct (drop n (b :: content)) as [|x rest] eqn:E.
    + rewrite readChunks_nil in Hlast. cbn in Hlast. lia.
    + pose proof (length_drop (b :: content) n) as Hl. rewrite E in Hl.
      cbn [List.length] in Hl. cbn [List.length]. lia.
  - cbn in Hi. cbn [List.length] in Hlast.
    apply (IH (drop n (b :: content)) i chunk Hi). lia.
Qed.

(** X16. The client cuts the file into full buffers: every chunk but the
    last has exactly [CHUNK_SIZE] bytes. *)
Theorem chunks_full_but_last (cfg : Config) (content : list byte)
    (i : nat) (chunk : list byte) :
  chunksOf cfg content !! i = Some chunk ->
  S i < List.length (chunksOf cfg content) ->
  List.length chunk = Pos.to_nat (CHUNK_SIZE cfg).
Proof. apply readChunks_full. lia. Qed.

Lemma chunks_full_but_last_witness :
  List.length [x68; x65] = Pos.to_nat (CHUNK_SIZE Scenario.demoConfig).
Proof.
  apply (chunks_full_but_last Scenario.demoConfig Scenario.demoContent 0).
  - reflexivity.
  - vm_compute. lia.
Defined.

End SenderEdge.

(** ** The size of what goes on the wire *)
Module PayloadFacts.
Import Sender Trace SenderFacts Base64 Base64Facts.
Local Open Scope nat_scope.

Lemma encode_length (bs : list byte) :
  String.length (encode bs) = 4 * ((List.length bs + 2) / 3).
Proof.
  induction bs as [|a|a b|a b c l IH] using list_ind3; try reflexivity.
  cbn [encode String.length List.length]. rewrite IH.
  replace (S (S (S (List.length l))) + 2) with (List.length l + 2 + 1 * 3) by lia.
  rewrite Nat.div_add by lia. lia.
Qed.

Lemma pump_payloads cfg downloadId fileSize flushed bound :
  forall events t,
    Forall (fun e => match e with
                     | Data c => List.length c <= bound
                     | _ => True
                     end) events ->
    Forall (fun m => match m with
                     | MsgFileChunk _ _ chunk _ =>
                         String.length chunk <= 4 * ((bound + 2) / 3)
                     | _ => True
                     end)
      (pump cfg downloadId fileSize flushed t events).
Proof.
  induction events as [|e events IH]; intros t He; [constructor|].
  apply List.Forall_cons_iff in He as [He Hrest].
  destruct e as [chunk| |message]; cbn [pump].
  - destruct (flushed (chunkIndex t)); [|constructor].
    constructor; [|now apply IH].
    rewrite encode_length. apply Nat.mul_le_mono_l, Nat.Div0.div_le_mono. lia.
  - constructor; [exact I | constructor].
  - constructor; [exact I | constructor].
Qed.

(** X17. Bounded pieces: whatever the file and whatever the transport
    reports, the payload of every chunk envelope the client sends has at
    most [4 * ceil(CHUNK_SIZE / 3)] characters. *)
Theorem chunk_payload_bounded (cfg : Config) (content : list byte)
    (flushed : nat -> bool) (downloadId : string) :
  Forall (fun m => match m with
                   | MsgFileChunk _ _ chunk _ =>
                       String.length chunk
                       <= 4 * ((Pos.to_nat (CHUNK_SIZE cfg) + 2) / 3)
                   | _ => True
                   end)
    (handleDownloadRequest cfg (Some content) flushed downloadId).
Proof.
  unfold handleDownloadRequest, createReadStream. apply pump_payloads.
  apply Forall_app. split; [|repeat constructor].
  apply List.Forall_map.
  eapply List.Forall_impl; [|apply (readChunks_bounded (Pos.to_nat (CHUNK_SIZE cfg)))].
  - cbn. intros c Hc. lia.
  - lia.
Qed.

End PayloadFacts.

(** ** The connection of the client *)
Module ConnectionFacts.
Import Sender Connection.

Lemma clearInterval_single t : clearInterval t [t] = [].
Proof. unfold clearInterval. cbn. now rewrite Nat.eqb_refl. Qed.

Lemma handle_keeps_one_interval cfg file flushed st e :
  running st
  = match reconnectInterval st with Some t => [t] | None => [] end ->
  let st' := fst (handle cfg file flushed st e) in
  running st'
  = match reconnectInterval st' with Some t => [t] | None => [] end.
Proof.
  intros H. destruct e as [s|s m|s|s|t]; cbn [handle].
  - destruct (reconnectInterval st) as [t|] eqn:E; cbn.
    + rewrite H. apply clearInterval_single.
    + now rewrite H, E.
  - destruct m; cbn; exact H.
  - unfold attemptReconnect. destruct (reconnectInterval st) as [t|] eqn:E; cbn.
    + now rewrite H, E.
    + now rewrite H.
  - exact H.
  - destruct (existsb (Nat.eqb t) (running st)); cbn; exact H.
Qed.

(** X18. The client never runs two reconnect intervals: after any
    sequence of socket events and ticks, the only interval that is set is
    the one [reconnectInterval] holds, an open socket leaves none set,
    and a close leaves exactly one. *)
Theorem one_reconnect_interval (cfg : Config) (file : option (list byte))
    (flushed : nat -> bool) (events : list Event) :
  let st := handleAll cfg file flushed (connect start) events in
  running st
  = match reconnectInterval st with Some t => [t] | None => [] end
  /\ (forall socket,
        running (fst (handle cfg file flushed st (Open socket))) = [])
  /\ (forall socket,
        exists t,
          running (fst (handle cfg file flushed st (Closed socket))) = [t]).
Proof.
  intros st.
  assert (H : running st
              = match reconnectInterval st with Some t => [t] | None => [] end).
  { subst st.
    assert (Hall : forall st0,
               running st0
               = match reconnectInterval st0 with Some t => [t] | None => [] end ->
               running (handleAll cfg file flushed st0 events)
               = match reconnectInterval (handleAll cfg file flushed st0 events)
                 with Some t => [t] | None => [] end).
    { induction events as [|e events IH]; intros st0 H0; [exact H0|].
      cbn [handleAll]. apply IH. now apply handle_keeps_one_interval. }
    apply Hall. reflexivity. }
  split; [exact H|]. split.
  - intros socket. cbn [handle].
    destruct (reconnectInterval st) as [t|] eqn:E; cbn.
    + rewrite H. apply clearInterval_single.
    + exact H.
  - intros socket. cbn [handle]. unfold attemptReconnect.
    destruct (reconnectInterval st) as [t|] eqn:E; cbn.
    + exists t. exact H.
    + exists (intervals st). now rewrite H.
Qed.

End ConnectionFacts.

(** ** The generator of the test file *)
Module GeneratorFacts.
Import Generator.

Lemma charAt_length i : (i < 63)%nat -> List.length (charAt i) = 1%nat.
Proof.
  intros Hi. do 63 (destruct i as [|i]; [reflexivity|]). lia.
Qed.

Lemma randomChunk_length random :
  (forall k, (random k < 63)%nat) ->
  forall n drawn, List.length (randomChunk random drawn n) = n.
Proof.
  intros Hr. induction n as [|n IH]; intros drawn; [reflexivity|].
  cbn [randomChunk]. rewrite length_app, charAt_length, IH by apply Hr.
  reflexivity.
Qed.

(** With bytes left to write and fuel for two steps, the next thing that
    happens is a write, after a wait for ['drain'] at most. *)
Lemma writeChunk_next fuel accepts random fileSize chunkSize g canContinue :
  bytesWritten g < fileSize ->
  (2 <= fuel)%nat ->
  exists fuel' waited,
    (fuel <= fuel' + 2)%nat
    /\ writeChunk fuel accepts random fileSize chunkSize g canContinue
       = writeChunk fuel' accepts random fileSize chunkSize
           {| bytesWritten :=
                bytesWritten g + N.min chunkSize (fileSize - bytesWritten g);
              writes :=
                writes g
                  ++ [randomChunk random (drawn g)
                        (N.to_nat (N.min chunkSize (fileSize - bytesWritten g)))];
              drawn :=
                (drawn g
                 + N.to_nat (N.min chunkSize (fileSize - bytesWritten g)))%nat;
              drains := waited;
              ended := false |}
           (accepts (List.length (writes g))).
Proof.
  intros Hlt Hfuel. destruct fuel as [|[|fuel]]; try lia.
  apply N.ltb_lt in Hlt. destruct canContinue.
  - exists (S fuel), (drains g). split; [lia|].
    cbn [writeChunk]. rewrite Hlt. reflexivity.
  - exists fuel, (S (drains g)). split; [lia|].
    cbn [writeChunk bytesWritten writes drawn drains]. rewrite Hlt. reflexivity.
Qed.

Lemma writeChunk_runs random fileSize chunkSize :
  0 < chunkSize ->
  (forall k, (random k < 63)%nat) ->
  forall r fuel accepts g canContinue,
    bytesWritten g <= fileSize ->
    (N.to_nat (fileSize - bytesWritten g) <= r)%nat ->
    (2 * r + 2 <= fuel)%nat ->
    exists more,
      (let res :=
         writeChunk fuel accepts random fileSize chunkSize g canContinue in
       ended res = true
       /\ bytesWritten res = fileSize
       /\ writes res = writes g ++ more)
      /\ N.of_nat (List.length (concat more)) = fileSize - bytesWritten g
      /\ Forall (fun c => 0 < N.of_nat (List.length c) <= chunkSize) more
      /\ forall fuel' accepts' g' canContinue',
           bytesWritten g' = bytesWritten g ->
           drawn g' = drawn g ->
           (2 * r + 2 <= fuel')%nat ->
           writes (writeChunk fuel' accepts' random fileSize chunkSize g'
                     canContinue')
           = writes g' ++ more.
Proof.
  intros Hc Hr. induction r as [|r IH]; intros fuel accepts g cc Hle Hrem Hfuel.
  - assert (E : bytesWritten g = fileSize) by lia.
    assert (Hlt : (bytesWritten g <? fileSize) = false) by (apply N.ltb_ge; lia).
    exists []. split; [|split; [|split]].
    + destruct fuel as [|fuel]; [lia|]. cbn [writeChunk]. rewrite Hlt. cbn.
      now rewrite app_nil_r.
    + cbn. lia.
    + constructor.
    + intros fuel' accepts' g' cc' Hb Hd Hf'.
      destruct fuel' as [|fuel']; [lia|]. cbn [writeChunk]. rewrite Hb, Hlt.
      cbn. now rewrite app_nil_r.
  - destruct (N.ltb_spec (bytesWritten g) fileSize) as [Hlt|Hge].
    + destruct (writeChunk_next fuel accepts random fileSize chunkSize g cc Hlt)
        as (fuel1 & waited & Hf1 & E1); [lia|].
      set (size := N.min chunkSize (fileSize - bytesWritten g)) in *.
      assert (Hsize : 0 < size <= fileSize - bytesWritten g) by (subst size; lia).
      set (chunk := randomChunk random (drawn g) (N.to_nat size)) in *.
      match type of E1 with _ = writeChunk _ _ _ _ _ ?g1 ?c1 =>
        destruct (IH fuel1 accepts g1 c1) as (more & Hres & Hlen & Hall & Hany)
      end; cbn [bytesWritten]; try lia.
      exists (chunk :: more). split; [|split; [|split]].
      * rewrite E1. cbn zeta in *. cbn [writes bytesWritten] in Hres.
        destruct Hres as (He & Hb & Hw). rewrite He, Hb, Hw.
        rewrite <- app_assoc. auto.
      * cbn [concat]. rewrite length_app. subst chunk.
        rewrite randomChunk_length by assumption.
        cbn [bytesWritten] in Hlen. lia.
      * constructor; [|assumption]. subst chunk.
        rewrite randomChunk_length by assumption. subst size. lia.
      * intros fuel' accepts' g' cc' Hb Hd Hf'.
        destruct (writeChunk_next fuel' accepts' random fileSize chunkSize g' cc')
          as (fuel2 & waited2 & Hf2 & E2); [lia | lia |].
        rewrite E2, Hany; cbn [bytesWritten drawn writes]; try lia.
        rewrite <- app_assoc. rewrite Hb, Hd. reflexivity.
    + assert (Hlt : (bytesWritten g <? fileSize) = false) by (apply N.ltb_ge; lia).
      exists []. split; [|split; [|split]].
      * destruct fuel as [|fuel]; [lia|]. cbn [writeChunk]. rewrite Hlt. cbn.
        rewrite app_nil_r. repeat split. lia.
      * cbn. lia.
      * constructor.
      * intros fuel' accepts' g' cc' Hb Hd Hf'.
        destruct fuel' as [|fuel']; [lia|]. cbn [writeChunk]. rewrite Hb, Hlt.
        cbn. now rewrite app_nil_r.
Qed.

(** X19. The generator writes the whole file whatever the back-pressure:
    with any answers of [stream.write], it ends the stream after writing
    exactly [fileSize] characters in pieces of at most [chunkSize], and
    the pieces written are the same as with a stream that never asks to
    wait. *)
Theorem generator_writes_whole_file (accepts : nat -> bool)
    (random : nat -> nat) (fileSize chunkSize : N) (fuel : nat) :
  0 < chunkSize ->
  (forall k, (random k < 63)%nat) ->
  (2 * N.to_nat fileSize + 2 <= fuel)%nat ->
  let res := writeChunk fuel accepts random fileSize chunkSize start true in
  ended res = true
  /\ bytesWritten res = fileSize
  /\ N.of_nat (List.length (concat (writes res))) = fileSize
  /\ Forall (fun c => 0 < N.of_nat (List.length c) <= chunkSize) (writes res)
  /\ writes res
     = writes (writeChunk fuel (fun _ => true) random fileSize chunkSize
                 start true).
Proof.
  intros Hc Hr Hfuel res.
  destruct (writeChunk_runs random fileSize chunkSize Hc Hr
              (N.to_nat fileSize) fuel accepts start true)
    as (more & (He & Hb & Hw) & Hlen & Hall & Hany);
    cbn [start bytesWritten]; try lia.
  fold res in He, Hb, Hw. cbn [start writes bytesWritten app] in *.
  rewrite Hw. repeat split; try assumption.
  - rewrite Hlen. lia.
  - symmetry. apply (Hany fuel (fun _ => true) start true); auto.
Qed.

Lemma generator_writes_whole_file_witness :
  writes (writeChunk 12 (fun k => Nat.even k) (fun k => k mod 63)%nat 5 2
            start true)
  = writes (writeChunk 12 (fun _ => true) (fun k => k mod 63)%nat 5 2
              start true).
Proof.
  refine (proj2 (proj2 (proj2 (proj2
    (generator_writes_whole_file (fun k => Nat.even k)
       (fun k => k mod 63)%nat 5 2 12 _ _ _))))).
  - reflexivity.
  - intros k. apply Nat.mod_upper_bound. lia.
  - vm_compute. lia.
Defined.

End GeneratorFacts.

(** ** Transfers among other traffic, and from request to sink *)
Module TransferFacts.
Import Sender Trace Server JsMap JsMapFacts JsMapMore System SenderFacts
  ServerFacts SystemFacts SinkFacts ApiFacts.

Lemma findByWs_other st k c ws' k' :
  consistent st ->
  get k (clients st) = Some c ->
  Client.ws c <> ws' ->
  findByWs ws' (clients st) = Some k' ->
  k' <> k.
Proof.
  intros H Hget Hws Hf ->.
  destruct (findByWs_In _ _ _ Hf) as (c' & Hin & Hc').
  rewrite (In_get _ _ _ (keys_once st H) Hin) in Hget. congruence.
Qed.

(** An input that does not touch [k] leaves its entry and its sink. *)
Lemma untouched_step DOWNLOAD_DIR st i k c :
  consistent st ->
  get k (clients st) = Some c ->
  touches k (Client.ws c) i = false ->
  let st' := fst (step DOWNLOAD_DIR st i) in
  get k (clients st') = Some c
  /\ forall d,
       Client.currentDownload c = Some d ->
       streams st' !! Download.stream d = streams st !! Download.stream d.
Proof.
  intros H Hget Ht. destruct i as [now ws data|ws|now clientId];
    cbn [step touches] in *.
  - destruct (message_frame DOWNLOAD_DIR st now ws data k H Ht) as [E1 E2].
    cbn zeta. rewrite E1. split; [assumption|]. intros d. now apply E2.
  - cbn zeta. unfold onClose.
    destruct (findByWs ws (clients st)) as [k'|] eqn:Hf; cbn [fst clients streams];
      [|auto].
    apply Nat.eqb_neq in Ht.
    assert (k' <> k)
      by (apply (findByWs_other st k c ws k' H Hget); [congruence | exact Hf]).
    rewrite get_delete_ne by assumption. auto.
  - pose proof (step_request st now clientId) as E.
    destruct (requestFileDownload st now clientId) as [[r st'] e].
    cbn in *. subst. auto.
Qed.

(** The rest of a transfer whose sink is open, among other inputs. *)
Lemma transfer_in_progress DOWNLOAD_DIR k downloadId p totalChunks fileSize wsk :
  forall inputs st c d W cs i,
    consistent st ->
    get k (clients st) = Some c ->
    Client.ws c = wsk ->
    Client.currentDownload c = Some d ->
    streams st !! Download.stream d
    = Some {| path := p; written := W; ended := false |} ->
    Forall (fun x => x <> Close wsk) inputs ->
    namedTo k inputs
    = chunkMsgs k downloadId i cs
        ++ [MsgFileComplete k downloadId totalChunks fileSize] ->
    streams (fst (run DOWNLOAD_DIR st inputs)) !! Download.stream d
    = Some {| path := p; written := W ++ concat cs; ended := true |}.
Proof.
  induction inputs as [|x inputs IH]; intros st c d W cs i H Hget Hws Hd Hs Hnc Hn.
  - destruct cs; discriminate.
  - apply List.Forall_cons_iff in Hnc as [Hx Hnc]. rewrite run_cons.
    destruct (touches k wsk x) eqn:Ht.
    + destruct x as [now ws data|ws|now clientId]; cbn [touches] in Ht.
      * cbn [namedTo] in Hn. rewrite Ht in Hn. cbn [step].
        destruct cs as [|c0 cs]; cbn [chunkMsgs app] in Hn;
          injection Hn as -> Hn; cbn [onMessage].
        -- rewrite (handleFileComplete_open _ _ _ _ _ _ c d Hget Hd).
           rewrite unreferenced_run.
           ++ cbn [streams]. rewrite list_lookup_alter_eq, Hs. cbn.
              now rewrite app_nil_r.
           ++ intros k2 c2 d2. cbn [clients]. rewrite get_set.
              destruct (String.eqb_spec k k2) as [->|Hne];
                [intros [= <-]; discriminate|].
              intros Hc2 Hd2. apply not_eq_sym.
              exact (sinks_apart st H k k2 c c2 d d2 Hne Hget Hc2 Hd Hd2).
           ++ cbn [streams]. rewrite length_alter. eapply lookup_lt_Some; eauto.
        -- pose proof (consistent_chunk DOWNLOAD_DIR st now k downloadId
                         (Base64.encode c0) i H) as H'.
           rewrite (handleFileChunk_open _ _ _ _ _ _ _ c d Hget Hd) in *.
           rewrite (IH _ (withDownload c (Some (received d))) (received d)
                      (W ++ c0) cs (S i)); try assumption.
           ++ cbn [concat]. now rewrite app_assoc.
           ++ apply get_set_eq.
           ++ reflexivity.
           ++ cbn [streams received Download.stream].
              rewrite list_lookup_alter_eq, Hs. cbn.
              now rewrite Base64Facts.decode_encode.
      * apply Nat.eqb_eq in Ht. subst ws. congruence.
      * discriminate.
    + assert (Hn' : namedTo k inputs
                    = chunkMsgs k downloadId i cs
                        ++ [MsgFileComplete k downloadId totalChunks fileSize]).
      { destruct x as [now ws data|ws|now clientId]; cbn [namedTo touches] in *;
          [now rewrite Ht in Hn | assumption | assumption]. }
      subst wsk.
      destruct (untouched_step DOWNLOAD_DIR st x k c H Hget Ht) as [Hget' Hs'].
      apply (IH _ c d W cs i); try assumption.
      * now apply consistent_step.
      * reflexivity.
      * now rewrite Hs'.
Qed.

Lemma step_length DOWNLOAD_DIR st i :
  (List.length (streams st)
   <= List.length (streams (fst (step DOWNLOAD_DIR st i))))%nat.
Proof.
  destruct (List.length (streams st)) as [|n] eqn:E; [lia|].
  destruct (lookup_lt_is_Some_2 (streams st) n) as [s Hs]; [lia|].
  destruct (step_extends DOWNLOAD_DIR st i n s Hs) as (s' & Hs' & _).
  apply lookup_lt_Some in Hs'. lia.
Qed.

(** A whole transfer to a client without a download, among other
    inputs: its bytes go through a stream that is opened for it. *)
Lemma transfer_among_others DOWNLOAD_DIR k downloadId totalChunks fileSize wsk c0 cs :
  forall inputs st c,
    consistent st ->
    get k (clients st) = Some c ->
    Client.ws c = wsk ->
    Client.currentDownload c = None ->
    Forall (fun x => x <> Close wsk) inputs ->
    namedTo k inputs
    = chunkMsgs k downloadId 0 (c0 :: cs)
        ++ [MsgFileComplete k downloadId totalChunks fileSize] ->
    exists h,
      (List.length (streams st) <= h)%nat
      /\ streams (fst (run DOWNLOAD_DIR st inputs)) !! h
         = Some {| path := join DOWNLOAD_DIR (fileNameOf k downloadId);
                   written := concat (c0 :: cs);
                   ended := true |}.
Proof.
  induction inputs as [|x inputs IH]; intros st c H Hget Hws Hd Hnc Hn;
    [discriminate|].
  apply List.Forall_cons_iff in Hnc as [Hx Hnc]. rewrite run_cons.
  destruct (touches k wsk x) eqn:Ht.
  - destruct x as [now ws data|ws|now clientId]; cbn [touches] in Ht.
    + cbn [namedTo] in Hn. rewrite Ht in Hn. cbn [chunkMsgs app] in Hn.
      injection Hn as -> Hn. cbn [step onMessage].
      pose proof (consistent_chunk DOWNLOAD_DIR st now k downloadId
                    (Base64.encode c0) 0 H) as H'.
      rewrite (handleFileChunk_fresh _ _ _ _ _ _ _ c Hget Hd) in *.
      exists (List.length (streams st)). split; [lia|].
      rewrite (transfer_in_progress DOWNLOAD_DIR k downloadId
                 (join DOWNLOAD_DIR (fileNameOf k downloadId))
                 totalChunks fileSize wsk inputs _
                 (withDownload c
                    (Some (received (opened DOWNLOAD_DIR st now k downloadId))))
                 (received (opened DOWNLOAD_DIR st now k downloadId))
                 c0 cs 1); try assumption; try reflexivity.
      * apply get_set_eq.
      * cbn [streams received opened Download.stream].
        rewrite list_lookup_middle by reflexivity.
        now rewrite Base64Facts.decode_encode.
    + apply Nat.eqb_eq in Ht. subst ws. congruence.
    + discriminate.
  - assert (Hn' : namedTo k inputs
                  = chunkMsgs k downloadId 0 (c0 :: cs)
                      ++ [MsgFileComplete k downloadId totalChunks fileSize]).
    { destruct x as [now ws data|ws|now clientId]; cbn [namedTo touches] in *;
        [now rewrite Ht in Hn | assumption | assumption]. }
    subst wsk.
    destruct (untouched_step DOWNLOAD_DIR st x k c H Hget Ht) as [Hget' _].
    destruct (IH (fst (step DOWNLOAD_DIR st x)) c) as (h & Hh & Hs);
      try assumption.
    + now apply consistent_step.
    + reflexivity.
    + exists h. split; [|exact Hs].
      pose proof (step_length DOWNLOAD_DIR st x). lia.
Qed.

(** X20. The transfer of one client among other traffic, at the level of
    the write streams. Take a state the server can reach in which the
    client is registered and has no download in progress, and a file
    that is not empty. Let the envelopes of one transfer of that file
    arrive in order among any other inputs that neither name the client
    nor close its connection (envelopes of other clients, registrations
    under other ids, requests, closes of other connections). Then a write
    stream that did not exist before is opened for the transfer, under
    the name made of the client id and the identifier; the bytes written
    through it are exactly the file, and it is ended. Nothing is said of
    the disk: another stream may be open on the same path. *)
Theorem concurrent_transfer (DOWNLOAD_DIR : string) (cfg : Config)
    (before inputs : list Input) (client : Client.t)
    (content : list byte) (downloadId : string) :
  let st := fst (run DOWNLOAD_DIR initial before) in
  lookup st (CLIENT_ID cfg) = Some client ->
  Client.currentDownload client = None ->
  content <> [] ->
  Forall (fun x => x <> Close (Client.ws client)) inputs ->
  namedTo (CLIENT_ID cfg) inputs
  = handleDownloadRequest cfg (Some content) (fun _ => true) downloadId ->
  exists h,
    (List.length (streams st) <= h)%nat
    /\ streams (fst (run DOWNLOAD_DIR st inputs)) !! h
       = Some {| path := join DOWNLOAD_DIR
                           (fileNameOf (CLIENT_ID cfg) downloadId);
                 written := content;
                 ended := true |}.
Proof.
  intros st Hget Hd Hne Hnc Hn.
  rewrite handleDownloadRequest_flushed in Hn by reflexivity.
  pose proof (chunksOf_concat cfg content) as Hcat.
  destruct (chunksOf cfg content) as [|c0 cs] eqn:E.
  - cbn in Hcat. congruence.
  - rewrite <- Hcat.
    eapply (transfer_among_others DOWNLOAD_DIR (CLIENT_ID cfg) downloadId);
      eauto.
    apply consistent_run, consistent_initial.
Qed.

Lemma concurrent_transfer_witness :
  exists h,
    (List.length
       (streams
          (fst (run "downloads" initial
                  [Message 1000 7 (MsgRegister "restaurant-1");
                   Message 1001 8 (MsgRegister "restaurant-2")])))
     <= h)%nat
    /\ streams
         (fst (run "downloads"
                 (fst (run "downloads" initial
                         [Message 1000 7 (MsgRegister "restaurant-1");
                          Message 1001 8 (MsgRegister "restaurant-2")]))
                 [Message 2000 7
                    (MsgFileChunk "restaurant-1" "download_1500" "aGU=" 0%nat);
                  Message 2001 8
                    (MsgFileChunk "restaurant-2" "download_1600" "eHg=" 0%nat);
                  Message 2002 7
                    (MsgFileChunk "restaurant-1" "download_1500" "bGw=" 1%nat);
                  Close 8;
                  Message 2003 7
                    (MsgFileChunk "restaurant-1" "download_1500" "bw==" 2%nat);
                  Message 2004 7
                    (MsgFileComplete "restaurant-1" "download_1500" 3%nat
                       5%nat)]))
         !! h
       = Some {| path :=
                   "downloads/restaurant-1_download_1500_file_to_download.txt";
                 written := Scenario.demoContent;
                 ended := true |}.
Proof.
  apply (concurrent_transfer "downloads" Scenario.demoConfig
           [Message 1000 7 (MsgRegister "restaurant-1");
            Message 1001 8 (MsgRegister "restaurant-2")]
           _ {| Client.ws := 7%nat; Client.id := "restaurant-1";
                Client.connectedAt := 1000;
                Client.currentDownload := None |}
           Scenario.demoContent "download_1500").
  - reflexivity.
  - reflexivity.
  - discriminate.
  - repeat constructor; discriminate.
  - reflexivity.
Defined.

End TransferFacts.

(** ** From the request to the sink *)
Module EndToEnd.
Import Sender Trace Server JsMap JsMapFacts SenderFacts ServerFacts Api.

Lemma postDownload_named st now k :
  k <> "" ->
  postDownload st now (Some k)
  = match requestFileDownload st now k with
    | (inr result, st', effects) =>
        ({| status := 200;
            body := BodySuccess ("Download initiated from client " +:+ k)
                      result |}, st', effects)
    | (inl error, st', effects) =>
        ({| status := 404; body := BodyFailure (errorMessage error) |},
         st', effects)
    end.
Proof. destruct k; [congruence | reflexivity]. Qed.

(** X21. One download from end to end: the client opens its socket and
    registers; [POST /api/download] for its id answers 200 and sends one
    download request over its connection; the client answers the request
    with the envelopes of its file; the server, fed these in order, ends
    with one new sink, named after the client and the identifier of the
    request, that holds the file (and with none for an empty file). *)
Theorem requested_file_arrives (DOWNLOAD_DIR : string) (cfg : Config)
    (st : State) (content : list byte) (flushed : nat -> bool)
    (t0 now : N) (ws socket : nat) (cst : Connection.State)
    (stamped : list (N * ClientMsg)) :
  CLIENT_ID cfg <> "" ->
  (forall i, flushed i = true) ->
  let registration :=
    map Connection.message
      (snd (Connection.handle cfg (Some content) flushed cst
              (Connection.Open socket))) in
  let st1 := deliver DOWNLOAD_DIR st ws (map (fun m => (t0, m)) registration) in
  let '(response, st2, effects) :=
    postDownload st1 now (Some (CLIENT_ID cfg)) in
  let answer :=
    map Connection.message
      (snd (Connection.handle cfg (Some content) flushed cst
              (Connection.Received socket
                 (MsgDownloadRequest (downloadIdAt now))))) in
  registration = [MsgRegister (CLIENT_ID cfg)]
  /\ status response = 200%nat
  /\ sends effects = [(ws, MsgDownloadRequest (downloadIdAt now))]
  /\ (map snd stamped = answer ->
      streams (deliver DOWNLOAD_DIR st2 ws stamped)
      = streams st
          ++ match content with
             | [] => []
             | _ :: _ =>
                 [{| path := join DOWNLOAD_DIR
                               (fileNameOf (CLIENT_ID cfg) (downloadIdAt now));
                     written := content;
                     ended := true |}]
             end).
Proof.
  intros Hid Hf.
  cbn [Connection.handle Connection.message snd map deliver onMessage fst].
  unfold handleClientRegistration. cbn [fst].
  rewrite postDownload_named by assumption.
  unfold requestFileDownload. cbn [clients]. rewrite get_set_eq.
  cbn [Client.ws sends]. repeat split.
  rewrite map_map, map_id. intros Hm.
  rewrite handleDownloadRequest_flushed in Hm by assumption.
  erewrite Protocol.deliver_transfer;
    [| cbn [clients]; apply get_set_eq | reflexivity | exact Hm].
  cbn [streams]. f_equal. rewrite chunksOf_concat.
  destruct content as [|b content]; reflexivity.
Qed.

Lemma requested_file_arrives_witness :
  streams
    (deliver "downloads"
       (deliver "downloads" initial 7 [(1000, MsgRegister "restaurant-1")]) 7
       (map (fun m => (2000, m))
          (handleDownloadRequest Scenario.demoConfig
             (Some Scenario.demoContent) (fun _ => true) "download_1500")))
  = [{| path := "downloads/restaurant-1_download_1500_file_to_download.txt";
        written := Scenario.demoContent;
        ended := true |}].
Proof.
  refine (proj2 (proj2 (proj2
    (requested_file_arrives "downloads" Scenario.demoConfig initial
       Scenario.demoContent (fun _ => true) 1000 1500 7 0
       (Connection.connect Connection.start)
       (map (fun m => (2000, m))
          (handleDownloadRequest Scenario.demoConfig
             (Some Scenario.demoContent) (fun _ => true) "download_1500"))
       _ _))) _).
  - discriminate.
  - reflexivity.
  - rewrite map_map. apply map_id.
Defined.

End EndToEnd.

(** ** What the server sends, and to whom *)
Module ReplyFacts.
Import Server JsMap JsMapFacts JsMapMore System ServerFacts SystemFacts
  ApiFacts TransferFacts Naming.

(** X22. The server speaks only when spoken to: a registration is
    acknowledged over the connection it came on, a request for a
    registered client goes over the connection of its entry, and nothing
    else is ever sent: no chunk, completion or error is acknowledged and a
    close sends nothing. *)
Theorem what_the_server_sends (DOWNLOAD_DIR : string) (st : State)
    (i : Input) :
  sends (snd (step DOWNLOAD_DIR st i))
  = match i with
    | Message _ ws (MsgRegister clientId) => [(ws, MsgRegistered clientId)]
    | Request now clientId =>
        match lookup st clientId with
        | Some client =>
            [(Client.ws client, MsgDownloadRequest (downloadIdAt now))]
        | None => []
        end
    | _ => []
    end.
Proof.
  destruct i as [now ws data|ws|now clientId]; cbn [step].
  - destruct data as [k|k did chunk idx|k did n size|k did e|t];
      cbn [onMessage]; try reflexivity.
    + unfold handleFileChunk. destruct (get k (clients st)) as [c|]; [|reflexivity].
      destruct (Client.currentDownload c) as [d|]; cbn; [|reflexivity].
      match goal with |- context [if ?b then _ else _] => destruct b end;
        reflexivity.
    + unfold handleFileComplete. destruct (get k (clients st)) as [c|]; [|reflexivity].
      now destruct (Client.currentDownload c).
  - unfold onClose. now destruct (findByWs ws (clients st)).
  - unfold requestFileDownload, lookup.
    now destruct (get clientId (clients st)).
Qed.

Lemma entry_survives_step DOWNLOAD_DIR st i k ws c :
  consistent st ->
  get k (clients st) = Some c ->
  Client.ws c = ws ->
  displaces k ws i = false ->
  exists c',
    get k (clients (fst (step DOWNLOAD_DIR st i))) = Some c'
    /\ Client.ws c' = ws
    /\ Client.connectedAt c' = Client.connectedAt c.
Proof.
  intros H Hget Hws Hd.
  assert (Hsame : exists c', get k (clients st) = Some c' /\ Client.ws c' = ws
                             /\ Client.connectedAt c' = Client.connectedAt c)
    by eauto.
  destruct i as [now ws0 data|ws0|now clientId]; cbn [step displaces] in *.
  - destruct data as [k0|k0 did chunk idx|k0 did n size|k0 did e|t];
      cbn [onMessage]; try exact Hsame.
    + apply String.eqb_neq in Hd. unfold handleClientRegistration.
      cbn [fst clients]. now rewrite get_set_ne.
    + destruct (get k0 (clients st)) as [c0|] eqn:Hget0.
      2: { unfold handleFileChunk. now rewrite Hget0. }
      assert (E : exists d', clients (fst (handleFileChunk DOWNLOAD_DIR st now
                                             k0 did chunk idx))
                             = set k0 (withDownload c0 d') (clients st)).
      { destruct (Client.currentDownload c0) as [d0|] eqn:Hd0.
        - rewrite (handleFileChunk_open _ _ _ _ _ _ _ c0 d0 Hget0 Hd0). eauto.
        - rewrite (handleFileChunk_fresh _ _ _ _ _ _ _ c0 Hget0 Hd0). eauto. }
      destruct E as [d' ->]. rewrite get_set.
      destruct (String.eqb_spec k0 k) as [->|Hne]; [|exact Hsame].
      rewrite Hget in Hget0. injection Hget0 as <-. eauto.
    + destruct (get k0 (clients st)) as [c0|] eqn:Hget0.
      2: { unfold handleFileComplete. now rewrite Hget0. }
      destruct (Client.currentDownload c0) as [d0|] eqn:Hd0.
      * rewrite (handleFileComplete_open _ _ _ _ _ _ c0 d0 Hget0 Hd0).
        cbn [clients]. rewrite get_set.
        destruct (String.eqb_spec k0 k) as [->|Hne]; [|exact Hsame].
        rewrite Hget in Hget0. injection Hget0 as <-. eauto.
      * now rewrite (handleFileComplete_idle _ _ _ _ _ _ c0 Hget0 Hd0).
  - unfold onClose.
    destruct (findByWs ws0 (clients st)) as [k'|] eqn:Hf; cbn [fst clients];
      [|exact Hsame].
    apply Nat.eqb_neq in Hd.
    assert (k' <> k)
      by (apply (findByWs_other st k c ws0 k' H Hget); [congruence | exact Hf]).
    now rewrite get_delete_ne.
  - pose proof (step_request st now clientId) as E.
    destruct (requestFileDownload st now clientId) as [[r st'] e].
    cbn in *. now subst.
Qed.

Lemma entry_survives_run DOWNLOAD_DIR k ws : forall inputs st c,
  consistent st ->
  get k (clients st) = Some c ->
  Client.ws c = ws ->
  Forall (fun i => displaces k ws i = false) inputs ->
  exists c',
    get k (clients (fst (run DOWNLOAD_DIR st inputs))) = Some c'
    /\ Client.ws c' = ws
    /\ Client.connectedAt c' = Client.connectedAt c.
Proof.
  induction inputs as [|i inputs IH]; intros st c H Hget Hws Hall; [eauto|].
  apply List.Forall_cons_iff in Hall as [Hi Hall]. rewrite run_cons.
  destruct (entry_survives_step DOWNLOAD_DIR st i k ws c H Hget Hws Hi)
    as (c1 & Hget1 & Hws1 & Hat1).
  destruct (IH _ c1 (consistent_step DOWNLOAD_DIR st i H) Hget1 Hws1 Hall)
    as (c2 & Hget2 & Hws2 & Hat2).
  exists c2. repeat split; congruence.
Qed.

(** X23. A registered client stays reachable over its connection: in a
    state the server can reach, after a registration and any inputs that
    neither register the id again nor close that connection, the client
    is still listed with the time of that registration, and a request
    for it is accepted and sent over that connection. *)
Theorem registration_persists (DOWNLOAD_DIR : string)
    (before inputs : list Input) (t0 now : N) (ws : nat) (k : string) :
  Forall (fun i => displaces k ws i = false) inputs ->
  let st := fst (run DOWNLOAD_DIR initial before) in
  let st1 := fst (handleClientRegistration st t0 ws k) in
  let st2 := fst (run DOWNLOAD_DIR st1 inputs) in
  (exists client,
     lookup st2 k = Some client
     /\ Client.ws client = ws /\ Client.connectedAt client = t0)
  /\ exists effects,
       requestFileDownload st2 now k
       = (inr {| h_clientId := k; h_downloadId := downloadIdAt now;
                 h_status := "initiated" |}, st2, effects)
       /\ sends effects = [(ws, MsgDownloadRequest (downloadIdAt now))].
Proof.
  intros Hall st st1 st2.
  assert (H1 : consistent st1).
  { apply consistent_registration, consistent_run, consistent_initial. }
  destruct (entry_survives_run DOWNLOAD_DIR k ws inputs st1
              {| Client.ws := ws; Client.id := k; Client.connectedAt := t0;
                 Client.currentDownload := None |} H1)
    as (c & Hget & Hws & Hat); try assumption; try reflexivity.
  { subst st1. unfold handleClientRegistration. cbn [fst clients].
    apply get_set_eq. }
  fold st2 in Hget. split.
  - exists c. auto.
  - unfold requestFileDownload. rewrite Hget, Hws. eexists. split; reflexivity.
Qed.

Lemma registration_persists_witness :
  exists client,
    lookup
      (fst (run "downloads"
              (fst (handleClientRegistration initial 1000 7 "restaurant-1"))
              [Message 1001 8 (MsgRegister "restaurant-2");
               Message 1501 7
                 (MsgFileChunk "restaurant-1" "download_1500" "aGU=" 0%nat);
               Close 8]))
      "restaurant-1" = Some client
    /\ Client.ws client = 7%nat /\ Client.connectedAt client = 1000.
Proof.
  refine (proj1 (registration_persists "downloads" []
                   [Message 1001 8 (MsgRegister "restaurant-2");
                    Message 1501 7
                      (MsgFileChunk "restaurant-1" "download_1500" "aGU=" 0%nat);
                    Close 8]
                   1000 1600 7 "restaurant-1" _)).
  repeat constructor.
Defined.

(** X24. The name of a sink does not tell the client from the
    identifier: a client whose id ends in [_x] and an identifier [id]
    give the same file name as the client without that ending and the
    identifier [x_id], so chunks of two different clients can be sent to
    the same path. *)
Theorem sink_names_can_coincide (DOWNLOAD_DIR k x id : string) :
  k +:+ "_" +:+ x <> k
  /\ fileNameOf (k +:+ "_" +:+ x) id = fileNameOf k (x +:+ "_" +:+ id)
  /\ join DOWNLOAD_DIR (fileNameOf (k +:+ "_" +:+ x) id)
     = join DOWNLOAD_DIR (fileNameOf k (x +:+ "_" +:+ id)).
Proof.
  assert (E : fileNameOf (k +:+ "_" +:+ x) id = fileNameOf k (x +:+ "_" +:+ id)).
  { unfold fileNameOf. apply chars_inj. rewrite !chars_app.
    now rewrite <- !app_assoc. }
  split; [|split; [exact E | now rewrite E]].
  intros H. apply (f_equal chars) in H. rewrite !chars_app in H.
  apply (f_equal (@List.length ascii)) in H. rewrite !length_app in H.
  cbn in H. lia.
Qed.

Lemma findByWs_None ws m :
  findByWs ws m = None -> forall k c, In (k, c) m -> Client.ws c <> ws.
Proof.
  induction m as [|[k0 c0] m IH]; simpl; [tauto|].
  destruct (Nat.eqb_spec (Client.ws c0) ws) as [E|E]; [discriminate|].
  intros H k c [[= <- <-]|Hin]; [assumption | eauto].
Qed.

(** X25. A connection that holds no entry, registers under an id and
    then closes leaves the registry without that id, also when the id was
    held by another connection before, which then is no longer reachable
    although it is still open; the entries under other ids stay as they
    were. *)
Theorem registration_undone_by_close (st : State) (now : N) (ws : nat)
    (clientId : string) :
  findByWs ws (clients st) = None ->
  let st' :=
    fst (onClose (fst (handleClientRegistration st now ws clientId)) ws) in
  lookup st' clientId = None
  /\ (forall k, k <> clientId -> lookup st' k = lookup st k)
  /\ streams st' = streams st.
Proof.
  intros Hnone st'. subst st'. unfold onClose, handleClientRegistration, lookup.
  cbn [fst clients streams].
  rewrite Protocol.findByWs_set; [|reflexivity|].
  - cbn [fst clients streams]. split; [apply get_delete_eq|]. split; [|reflexivity].
    intros k Hk. rewrite get_delete_ne, get_set_ne by congruence. reflexivity.
  - intros k c Hin _. exact (findByWs_None ws _ Hnone k c Hin).
Qed.

Lemma registration_undone_by_close_witness :
  lookup
    (fst (onClose
            (fst (handleClientRegistration Scenario.demoServer 1600 8
                    "restaurant-1")) 8))
    "restaurant-1" = None.
Proof.
  refine (proj1 (registration_undone_by_close Scenario.demoServer 1600 8
                   "restaurant-1" _)).
  reflexivity.
Defined.

End ReplyFacts.
